(** * parse-modules-load: kernel module directory selection and the
      Modprobe insert / remove / exists operations

    A shallow embedding of [src/main.cpp] and [src/libmodprobe_ext.cpp].

    - Strings are [string] (lists of bytes), [int] and [long] values are [Z].
      [module_count_] is an [int] that is only ever incremented; running it
      past [INT_MAX] is undefined in C++ and is not modelled.
    - The operating system and the parts of libmodprobe that are declared in
      [modprobe.h] but defined elsewhere form an interface, the class [Sys]:
      every system call and every foreign member function is a field of it,
      acting on an abstract kernel state.
    - Effects are threaded through a state monad over a [World]: the kernel
      state, the list of calls made so far (with their arguments) and the
      lines written to [std::cout].
    - The mutex [module_loaded_lock_] is not modelled: every function here is
      a sequential state transformer. *)

From Stdlib Require Import ZArith Ascii String List Permutation Sorted.
From stdpp Require Import base decidable option list gmap strings pretty sorting.

Open Scope string_scope.
Open Scope list_scope.
Open Scope Z_scope.

(** ** Characters and strings as the C library sees them *)

Module CStr.

Definition code (c : ascii) : Z := Z.of_N (N_of_ascii c).

(** [isspace] in the "C" locale: space, \t, \n, \v, \f, \r. *)
Definition isspace (c : ascii) : bool :=
  (code c =? 32) || ((9 <=? code c) && (code c <=? 13)).

Definition isdigit (c : ascii) : bool :=
  (48 <=? code c) && (code c <=? 57).

Definition digit_val (c : ascii) : Z := code c - 48.

Fixpoint skip_space (s : string) : string :=
  match s with
  | String c r => if isspace c then skip_space r else s
  | EmptyString => s
  end.

(** Reads the longest run of decimal digits at the head of [s]. *)
Fixpoint scan_digits (s : string) (acc : Z) : Z * string :=
  match s with
  | String c r =>
      if isdigit c then scan_digits r (10 * acc + digit_val c) else (acc, s)
  | EmptyString => (acc, s)
  end.

Definition LONG_MAX : Z := 2 ^ 63 - 1.
Definition LONG_MIN : Z := - 2 ^ 63.

(** The value is converted as by [strtol] (saturating at the bounds of
    [long]) and then stored through an [int*] (kept modulo 2^32). *)
Definition clamp_long (v : Z) : Z := Z.max LONG_MIN (Z.min LONG_MAX v).

Definition to_int (v : Z) : Z := (v + 2 ^ 31) mod 2 ^ 32 - 2 ^ 31.

(** One [%d] conversion: leading white space is skipped, an optional sign
    is read, and at least one digit is required. Returns the value and the
    rest of the input, or [None] when the conversion fails. *)
Definition scan_d (s : string) : option (Z * string) :=
  let s0 := skip_space s in
  let '(neg, s1) :=
    match s0 with
    | String "-" r => (true, r)
    | String "+" r => (false, r)
    | _ => (false, s0)
    end in
  match s1 with
  | String c _ =>
      if isdigit c then
        let '(v, rest) := scan_digits s1 0 in
        Some (to_int (clamp_long (if neg then - v else v)), rest)
      else None
  | EmptyString => None
  end.

(** [sscanf(s, "%d.%d", &a, &b)]. The first component is the number of
    items assigned; [a] and [b] keep their previous value when their
    conversion is not reached. (The C function answers EOF rather than 0
    when the input ends before the first conversion; both differ from 2,
    which is the only value its callers test for.) *)
Definition sscanf_d_dot_d (s : string) (a b : Z) : Z * Z * Z :=
  match scan_d s with
  | None => (0, a, b)
  | Some (a', String "." r) =>
      match scan_d r with
      | None => (1, a', b)
      | Some (b', _) => (2, a', b')
      end
  | Some (a', _) => (1, a', b)
  end.

(** [operator<] of [std::string]: bytes compared as unsigned values, a
    proper prefix is smaller. *)
Definition lt (s1 s2 : string) : bool := String.ltb s1 s2.

End CStr.

(** ** [std::sort] on a [std::vector<std::string>]

    The order on strings is total and antisymmetric, so the sorted
    rearrangement of a vector is unique; insertion sort computes it. *)

Fixpoint sort_insert (x : string) (l : list string) : list string :=
  match l with
  | [] => [x]
  | y :: l' => if CStr.lt y x then y :: sort_insert x l' else x :: l
  end.

Definition std_sort (l : list string) : list string :=
  foldr sort_insert [] l.

(** [a] may stand before [b] in a sorted vector. *)
Definition not_after (a b : string) : Prop := CStr.lt b a = false.

(** ** Directory entries and constants of the C library *)

Record dirent := Dirent { d_type : Z; d_name : string }.

Definition DT_DIR : Z := 4.

Definition EEXIST : Z := 17.

Definition S_IFMT : Z := 61440.   (* 0170000 *)
Definition S_IFREG : Z := 32768.  (* 0100000 *)

Definition S_ISREG (st_mode : Z) : bool := Z.land st_mode S_IFMT =? S_IFREG.

(** The numeric values of the open flags differ between architectures; the
    flag words are kept symbolic. *)
Inductive open_flag := O_RDONLY | O_NOFOLLOW | O_CLOEXEC | O_NONBLOCK.

Definition MODULE_BASE_DIR : string := "/lib/modules".

Definition to_size_t (v : Z) : Z := v mod 2 ^ 64.

(** ** The Modprobe object *)

(** Modelled from the spec: the class declaration, in [modprobe.h], is not
    among the source files. These are the data members that the two source
    files read or write, under the names the source uses; the last three are
    the sets and the counter of the specification's LoadedModuleRegistry. *)

Record Modprobe := mkModprobe {
  module_options_ : gmap string string;
  module_blocklist_ : gset string;
  blocklist_enabled : bool;
  module_loaded_ : gset string;
  module_loaded_paths_ : gset string;
  module_count_ : Z
}.

(** Modelled from the spec: [Modprobe::GetModuleCount], declared in
    [modprobe.h] and not defined in the two source files; it reads back the
    registry's count. *)
Definition GetModuleCount (m : Modprobe) : Z := module_count_ m.

(** ** Calls that leave the two source files

    Each call is recorded with its arguments. The two load calls are
    recorded with what [LoadKernelModules] reads back from them: the return
    value and the count of the object once the call is over. The [readdir]
    and [closedir] calls on the open directory are not recorded. *)

Inductive call :=
| C_uname
| C_opendir (path : string)
| C_stat (path : string)
| C_open (path : string) (flags : list open_flag)
| C_close (fd : Z)
| C_finit_module (fd : Z) (options : string) (flags : Z)
| C_delete_module (name : string) (flags : list open_flag)
| C_GetDependencies (name : string)
| C_Modprobe (base_paths : list string) (load_file : string)
| C_LoadListedModules (retval : bool) (count : Z)
| C_LoadModulesParallel (num_threads : Z) (retval : bool) (count : Z).

Definition is_parallel (c : call) : bool :=
  match c with C_LoadModulesParallel _ _ _ => true | _ => false end.

(** ** The interface to the system

    [K] is the state of everything outside the two source files: kernel,
    file system, and the tables of the dependency resolver. A system call
    that fails answers [-1] together with the value it leaves in [errno].
    [sys_open] stands for the [TEMP_FAILURE_RETRY] loop around [open], that
    is, for the first answer that is not an interruption. [sys_opendir]
    answers the entries that successive [readdir] calls would deliver.
    [sys_page_size] and the release string are properties of the running
    host; the page size is read once and cached by the source. *)

Class Sys (K : Type) := {
  sys_page_size : Z;
  sys_uname : K -> option string;
  sys_opendir : string -> K -> option (list dirent);
  sys_stat : string -> K -> option Z;
  sys_open : string -> list open_flag -> K -> Z * K;
  sys_close : Z -> K -> K;
  sys_finit_module : Z -> string -> Z -> K -> (Z * Z) * K;
  sys_delete_module : string -> list open_flag -> K -> (Z * Z) * K;
  sys_hardware_concurrency : K -> Z;
  MakeCanonical : string -> string;
  sys_GetDependencies : Modprobe -> string -> K -> list string;
  sys_Modprobe : list string -> string -> K -> Modprobe * K;
  sys_LoadListedModules : Modprobe -> K -> (bool * Modprobe) * K;
  sys_LoadModulesParallel : Z -> Modprobe -> K -> (bool * Modprobe) * K
}.

(** ** The world and its monad *)

Record World (K : Type) := mkWorld {
  kst : K;
  calls : list call;
  cout : list string
}.
Arguments mkWorld {K} _ _ _.
Arguments kst {K} _.
Arguments calls {K} _.
Arguments cout {K} _.

Definition M (K A : Type) : Type := World K -> A * World K.

Definition ret {K A} (a : A) : M K A := fun w => (a, w).

Definition bind {K A B} (m : M K A) (f : A -> M K B) : M K B :=
  fun w => let (a, w') := m w in f a w'.

Notation "'let*' x ':=' m 'in' k" := (bind m (fun x => k))
  (at level 10, x pattern, m at level 100, k at level 200).
Notation "m ';;;' k" := (bind m (fun _ => k))
  (at level 100, k at level 200, right associativity).

Definition when {K} (b : bool) (m : M K unit) : M K unit :=
  if b then m else ret tt.

(** One line on [std::cout], up to and including [std::endl]. *)
Definition print {K} (line : string) : M K unit :=
  fun w => (tt, mkWorld (kst w) (calls w) (cout w ++ [line])).

Definition record_call {K} (c : call) (w : World K) (k : K) : World K :=
  mkWorld k (calls w ++ [c]) (cout w).

Section Program.
Context {K : Type} `{HS : Sys K}.

Definition uname : M K (option string) :=
  fun w => (sys_uname (kst w), record_call C_uname w (kst w)).

Definition opendir (path : string) : M K (option (list dirent)) :=
  fun w => (sys_opendir path (kst w), record_call (C_opendir path) w (kst w)).

Definition stat (path : string) : M K (option Z) :=
  fun w => (sys_stat path (kst w), record_call (C_stat path) w (kst w)).

Definition open (path : string) (flags : list open_flag) : M K Z :=
  fun w => let (fd, k) := sys_open path flags (kst w) in
           (fd, record_call (C_open path flags) w k).

Definition close (fd : Z) : M K unit :=
  fun w => (tt, record_call (C_close fd) w (sys_close fd (kst w))).

Definition finit_module (fd : Z) (options : string) (flags : Z) : M K (Z * Z) :=
  fun w => let (r, k) := sys_finit_module fd options flags (kst w) in
           (r, record_call (C_finit_module fd options flags) w k).

Definition delete_module (name : string) (flags : list open_flag) : M K (Z * Z) :=
  fun w => let (r, k) := sys_delete_module name flags (kst w) in
           (r, record_call (C_delete_module name flags) w k).

Definition hardware_concurrency : M K Z :=
  fun w => (sys_hardware_concurrency (kst w), w).

Definition GetDependencies (this : Modprobe) (module : string) : M K (list string) :=
  fun w => (sys_GetDependencies this module (kst w),
            record_call (C_GetDependencies module) w (kst w)).

Definition new_Modprobe (base_paths : list string) (load_file : string) : M K Modprobe :=
  fun w => let (m, k) := sys_Modprobe base_paths load_file (kst w) in
           (m, record_call (C_Modprobe base_paths load_file) w k).

Definition LoadListedModules (m : Modprobe) : M K (bool * Modprobe) :=
  fun w => let (r, k) := sys_LoadListedModules m (kst w) in
           (r, record_call (C_LoadListedModules (fst r) (GetModuleCount (snd r))) w k).

Definition LoadModulesParallel (num_threads : Z) (m : Modprobe) : M K (bool * Modprobe) :=
  fun w => let (r, k) := sys_LoadModulesParallel num_threads m (kst w) in
           (r, record_call
                 (C_LoadModulesParallel num_threads (fst r) (GetModuleCount (snd r))) w k).

(** *** [src/main.cpp] *)

Definition GetPageSizeSuffix : string :=
  let page_size := to_size_t sys_page_size in
  if page_size <=? 4096 then ""
  else "_" +:+ pretty (page_size / 1024) +:+ "k".

Definition GetModuleLoadList (dir_path : string) : M K string :=
  let module_load_file := "modules.load.recovery" in
  let recovery_load_path := dir_path +:+ "/" +:+ module_load_file in
  let* st := stat recovery_load_path in
  match st with
  | None => ret "modules.load"
  | Some _ => ret module_load_file
  end.

(** The [while ((entry = readdir(...)))] loop of [LoadKernelModules];
    [module_dirs] is the vector built so far. *)
Fixpoint read_entries (release_specific_module_dir page_size_suffix : string)
    (major minor : Z) (entries : list dirent) (module_dirs : list string)
    : M K (list string) :=
  match entries with
  | [] => ret module_dirs
  | entry :: rest =>
      let continue :=
        read_entries release_specific_module_dir page_size_suffix
                     major minor rest module_dirs in
      if negb (d_type entry =? DT_DIR) then continue
      else if String.eqb (d_name entry) release_specific_module_dir then
        print ("Release specific kernel module dir " +:+ release_specific_module_dir
               +:+ " found, loading modules from here with no fallbacks.");;;
        ret [d_name entry]
      else
        let dir_page_size_suffix := GetPageSizeSuffix in
        if negb (String.eqb dir_page_size_suffix "")
           && negb (String.eqb dir_page_size_suffix page_size_suffix)
        then continue
        else
          let '(n, dir_major, dir_minor) :=
            CStr.sscanf_d_dot_d (d_name entry) 0 0 in
          if negb (n =? 2) || negb (dir_major =? major) || negb (dir_minor =? minor)
          then continue
          else
            read_entries release_specific_module_dir page_size_suffix
                         major minor rest (module_dirs ++ [d_name entry])
  end.

(** The [for (const auto& module_dir : module_dirs)] loop. [Some retval] is
    the [return retval] inside the loop, [None] is falling out of it. *)
Fixpoint try_dirs (module_dirs : list string) (modules_loaded : Z)
    : M K (option bool * Z) :=
  match module_dirs with
  | [] => ret (None, modules_loaded)
  | module_dir :: rest =>
      let dir_path := MODULE_BASE_DIR +:+ "/" in
      let dir_path := dir_path +:+ module_dir in
      let* load_file := GetModuleLoadList dir_path in
      let* m := new_Modprobe [dir_path] load_file in
      let* (retval, m) := LoadListedModules m in
      let modules_loaded := GetModuleCount m in
      if modules_loaded >? 0 then
        print ("Loaded " +:+ pretty modules_loaded +:+ " modules from " +:+ dir_path);;;
        ret (Some retval, modules_loaded)
      else try_dirs rest modules_loaded
  end.

(** [modules_loaded] is passed by reference: the second component of the
    result is its value when the function returns. *)
Definition LoadKernelModules (modules_loaded : Z) : M K (bool * Z) :=
  let* uts := uname in
  let release := default "" uts in
  when (bool_decide (uts = None)) (print "Failed to get kernel version.");;;
  let '(n, major, minor) := CStr.sscanf_d_dot_d release 0 0 in
  when (negb (n =? 2)) (print ("Failed to parse kernel version " +:+ release));;;
  let* base_dir := opendir MODULE_BASE_DIR in
  match base_dir with
  | None =>
      print "Unable to open /lib/modules, skipping module loading.";;;
      ret (true, modules_loaded)
  | Some entries =>
      let page_size_suffix := GetPageSizeSuffix in
      let release_specific_module_dir := release +:+ page_size_suffix in
      let* module_dirs :=
        read_entries release_specific_module_dir page_size_suffix
                     major minor entries [] in
      let module_dirs := std_sort module_dirs in
      let* (returned, modules_loaded) := try_dirs module_dirs modules_loaded in
      match returned with
      | Some retval => ret (retval, modules_loaded)
      | None =>
          let* load_file := GetModuleLoadList MODULE_BASE_DIR in
          let* m := new_Modprobe [MODULE_BASE_DIR] load_file in
          let* num_threads := hardware_concurrency in
          let* (retval, m) := LoadModulesParallel num_threads m in
          let modules_loaded := GetModuleCount m in
          if modules_loaded >? 0 then
            print ("Loaded " +:+ pretty modules_loaded +:+ " modules from "
                   +:+ MODULE_BASE_DIR);;;
            ret (retval, modules_loaded)
          else ret (true, modules_loaded)
      end
  end.

(** [main]: the process exit status. *)
Definition main : M K Z :=
  let modules_loaded := 0 in
  let* (_, modules_loaded) := LoadKernelModules modules_loaded in
  print ("Total modules loaded: " +:+ pretty modules_loaded);;;
  ret 0.

(** *** [src/libmodprobe_ext.cpp]

    A member function of [Modprobe] takes the object as [this] and answers
    its result together with the object as the call leaves it. The
    destructor of the [UniqueFd] local runs when [Insmod] returns, after the
    result has been computed. [syscall] answers a [long]; [Insmod] and
    [Rmmod] store it in [int ret] (here [ret_], the monad has [ret]), and it
    is that [int] they test. *)

Definition register_loaded (path_name canonical_name : string) (count : Z)
    (this : Modprobe) : Modprobe :=
  mkModprobe (module_options_ this) (module_blocklist_ this) (blocklist_enabled this)
             ({[ canonical_name ]} ∪ module_loaded_ this)
             ({[ path_name ]} ∪ module_loaded_paths_ this)
             count.

Definition erase_loaded (canonical_name : string) (this : Modprobe) : Modprobe :=
  mkModprobe (module_options_ this) (module_blocklist_ this) (blocklist_enabled this)
             (module_loaded_ this ∖ {[ canonical_name ]})
             (module_loaded_paths_ this)
             (module_count_ this).

(** Lines 71-79 of [Insmod]: the option string handed to the kernel. *)
Definition Insmod_options (path_name parameters : string) (this : Modprobe) : string :=
  let canonical_name := MakeCanonical path_name in
  let options := "" in
  let options :=
    match module_options_ this !! canonical_name with
    | Some second => second
    | None => options
    end in
  if negb (String.eqb parameters "") then options +:+ " " +:+ parameters
  else options.

Definition Insmod (path_name parameters : string) (this : Modprobe)
    : M K (bool * Modprobe) :=
  let* fd := open path_name [O_RDONLY; O_NOFOLLOW; O_CLOEXEC] in
  if fd =? -1 then ret (false, this)
  else
    let canonical_name := MakeCanonical path_name in
    let options := Insmod_options path_name parameters this in
    print ("Loading module " +:+ path_name +:+ " with args '" +:+ options +:+ "'");;;
    let* (r, errno) := finit_module fd options 0 in
    let ret_ := CStr.to_int r in
    let* result :=
      if negb (ret_ =? 0) then
        if errno =? EEXIST then
          ret (true, register_loaded path_name canonical_name (module_count_ this) this)
        else
          print ("Failed to insmod '" +:+ path_name +:+ "' with args '"
                 +:+ options +:+ "'");;;
          ret (false, this)
      else
        print ("Loaded kernel module " +:+ path_name);;;
        ret (true, register_loaded path_name canonical_name (module_count_ this + 1) this)
    in
    close fd;;;
    ret result.

Definition Rmmod (module_name : string) (this : Modprobe) : M K (bool * Modprobe) :=
  let canonical_name := MakeCanonical module_name in
  let* (r, _) := delete_module canonical_name [O_NONBLOCK] in
  let ret_ := CStr.to_int r in
  if negb (ret_ =? 0) then
    print ("Failed to remove module '" +:+ module_name +:+ "'");;;
    ret (false, this)
  else ret (true, erase_loaded canonical_name this).

Definition ModuleExists (module_name : string) (this : Modprobe)
    : M K (bool * Modprobe) :=
  if blocklist_enabled this && bool_decide (module_name ∈ module_blocklist_ this) then
    print ("module " +:+ module_name +:+ " is blocklisted");;;
    ret (false, this)
  else
    let* deps := GetDependencies this module_name in
    match deps with
    | [] => ret (false, this)
    | front :: _ =>
        let* fileStat := stat front in
        match fileStat with
        | None =>
            print ("module " +:+ module_name +:+ " can't be loaded; can't access "
                   +:+ front);;;
            ret (false, this)
        | Some st_mode =>
            if negb (S_ISREG st_mode) then
              print ("module " +:+ module_name +:+ " is not a regular file");;;
              ret (false, this)
            else ret (true, this)
        end
    end.

End Program.

(** ** Projections used by the statements *)

Section Views.
Context {K : Type} `{HS : Sys K}.

(** The vector [module_dirs] of [LoadKernelModules] after [std::sort], for
    the release string [release] and the directory stream [entries]. *)
Definition candidate_dirs (release : string) (entries : list dirent) : M K (list string) :=
  let '(_, major, minor) := CStr.sscanf_d_dot_d release 0 0 in
  let page_size_suffix := GetPageSizeSuffix in
  let* module_dirs :=
    read_entries (release +:+ page_size_suffix) page_size_suffix
                 major minor entries [] in
  ret (std_sort module_dirs).

(** The test of lines 87-88 of [src/main.cpp], as the condition to keep an
    entry: the name starts with the host's [major.minor]. *)
Definition same_version (major minor : Z) (name : string) : bool :=
  let '(n, dir_major, dir_minor) := CStr.sscanf_d_dot_d name 0 0 in
  (n =? 2) && (dir_major =? major) && (dir_minor =? minor).

Definition is_dir (e : dirent) : bool := d_type e =? DT_DIR.

(** What [LoadKernelModules] does once [module_dirs] is known. *)
Definition load_from (module_dirs : list string) (modules_loaded : Z) : M K (bool * Z) :=
  let* (returned, modules_loaded) := try_dirs module_dirs modules_loaded in
  match returned with
  | Some retval => ret (retval, modules_loaded)
  | None =>
      let* load_file := GetModuleLoadList MODULE_BASE_DIR in
      let* m := new_Modprobe [MODULE_BASE_DIR] load_file in
      let* num_threads := hardware_concurrency in
      let* (retval, m) := LoadModulesParallel num_threads m in
      let modules_loaded := GetModuleCount m in
      if modules_loaded >? 0 then
        print ("Loaded " +:+ pretty modules_loaded +:+ " modules from "
               +:+ MODULE_BASE_DIR);;;
        ret (retval, modules_loaded)
      else ret (true, modules_loaded)
  end.

(** The world in which [LoadKernelModules] reads the base directory: the
    kernel version has been queried and the two diagnostics, if any, have
    been printed. *)
Definition after_uname (w : World K) : World K :=
  snd ((let* uts := uname in
        let release := default "" uts in
        when (bool_decide (uts = None)) (print "Failed to get kernel version.");;;
        let '(n, _, _) := CStr.sscanf_d_dot_d release 0 0 in
        when (negb (n =? 2)) (print ("Failed to parse kernel version " +:+ release)))
       w).

End Views.

(** The flag word of the [open] in [Insmod]. *)
Definition insmod_flags : list open_flag := [O_RDONLY; O_NOFOLLOW; O_CLOEXEC].

(** The option strings of the [finit_module] calls of a trace, in order. *)
Definition finit_options (cs : list call) : list string :=
  omap (fun c => match c with C_finit_module _ o _ => Some o | _ => None end) cs.

(** The counts read back after the ordered-list loads of a trace. *)
Definition listed_counts (cs : list call) : list Z :=
  omap (fun c => match c with C_LoadListedModules _ n => Some n | _ => None end) cs.

Definition parallel_loads (cs : list call) : list call := List.filter is_parallel cs.

(** The calls made between two worlds. *)
Definition calls_since {K} (w w' : World K) : list call :=
  drop (length (calls w)) (calls w').

(** ** A small concrete system, for running the model

    The kernel state is the number of answers handed out so far; the
    answers of the module calls are scripted. *)

Module Fixture.

Record host := mkHost {
  h_page_size : Z;
  h_release : option string;
  h_entries : option (list dirent);
  h_stat : list (string * Z);
  h_open : list (string * Z);
  h_finit : list (Z * Z);
  h_delete : Z * Z;
  h_canonical : list (string * string);
  h_deps : list (string * list string);
  h_listed : list (bool * Z);
  h_parallel : bool * Z
}.

Fixpoint assoc {A} (key : string) (l : list (string * A)) : option A :=
  match l with
  | [] => None
  | (k, v) :: l' => if String.eqb k key then Some v else assoc key l'
  end.

Definition with_count (m : Modprobe) (c : Z) : Modprobe :=
  mkModprobe (module_options_ m) (module_blocklist_ m) (blocklist_enabled m)
             (module_loaded_ m) (module_loaded_paths_ m) c.

Definition fresh : Modprobe := mkModprobe ∅ ∅ true ∅ ∅ 0.

Definition sys (h : host) : Sys nat := {|
  sys_page_size := h_page_size h;
  sys_uname := fun _ => h_release h;
  sys_opendir := fun path _ =>
    if String.eqb path MODULE_BASE_DIR then h_entries h else None;
  sys_stat := fun path _ => assoc path (h_stat h);
  sys_open := fun path _ k => (default (-1) (assoc path (h_open h)), k);
  sys_close := fun _ k => k;
  sys_finit_module := fun _ _ _ k => (nth k (h_finit h) (-1, 2), S k);
  sys_delete_module := fun _ _ k => (h_delete h, k);
  sys_hardware_concurrency := fun _ => 4;
  MakeCanonical := fun path => default path (assoc path (h_canonical h));
  sys_GetDependencies := fun _ name _ => default [] (assoc name (h_deps h));
  sys_Modprobe := fun _ _ k => (fresh, k);
  sys_LoadListedModules := fun m k =>
    let r := nth k (h_listed h) (true, 0) in ((fst r, with_count m (snd r)), S k);
  sys_LoadModulesParallel := fun _ m k =>
    ((fst (h_parallel h), with_count m (snd (h_parallel h))), S k)
|}.

Definition boot : World nat := mkWorld 0%nat [] [].

(** An idle host: 4K pages, release 6.1.0, nothing on disk. *)
Definition idle : host :=
  mkHost 4096 (Some "6.1.0") None [] [] [] (0, 0) [] [] [] (true, 0).

Definition entries_of (names : list string) : list dirent := map (Dirent DT_DIR) names.

Definition with_dirs (release : string) (page_size : Z) (names : list string) : host :=
  mkHost page_size (Some release) (Some (entries_of names))
         [] [] [] (0, 0) [] [] [] (true, 0).

(** One module file [/lib/modules/6.1.0/wifi-core.ko], canonical name
    [wifi_core]; the first insertion succeeds, the second finds it
    resident. *)
Definition wifi_path : string := "/lib/modules/6.1.0/wifi-core.ko".

Definition wifi : host :=
  mkHost 4096 (Some "6.1.0") None
         [(wifi_path, 33188)] [(wifi_path, 3)]
         [(0, 0); (-1, EEXIST)] (0, 0)
         [(wifi_path, "wifi_core"); ("wifi-core", "wifi_core")]
         [("wifi_core", [wifi_path])] [] (true, 0).

Definition loader (options : list (string * string)) (blocked : list string) : Modprobe :=
  mkModprobe (list_to_map options) (list_to_set blocked) true ∅ ∅ 0.

(** The same module inserted twice in a row. *)
Definition first_insmod : bool * Modprobe * World nat :=
  Insmod (HS := sys wifi) wifi_path "" (loader [] []) boot.

Definition second_insmod : bool * Modprobe * World nat :=
  Insmod (HS := sys wifi) wifi_path "" (snd (fst first_insmod)) (snd first_insmod).

(** A loader that has [wifi_core] registered. *)
Definition loaded_wifi : Modprobe :=
  mkModprobe ∅ ∅ true {[ "wifi_core" ]} {[ wifi_path ]} 1.

(** A host on which [delete_module] fails (with [EWOULDBLOCK]). *)
Definition busy : host :=
  mkHost 4096 (Some "6.1.0") None [] [] [] (-1, 11)
         [("wifi-core", "wifi_core")] [] [] (true, 0).

(** Directory layouts under [/lib/modules]. *)
Definition three_names : list string := ["6.1.0-gki"; "6.1"; "5.4.0"].
Definition three_dirs : host := with_dirs "6.1.0" 4096 three_names.

Definition suffixed_names : list string := ["6.1.0_16k"; "6.1.0"].
Definition suffixed : host := with_dirs "6.1.0-gki" 4096 suffixed_names.

Definition exact_names : list string := ["6.1"; "6.1.0"; "6.1.0-gki"].
Definition exact_dir : host := with_dirs "6.1.0" 4096 exact_names.

(** Two candidate directories, with scripted answers of the loads. *)
Definition two_names : list string := ["6.1.0-gki"; "6.1"].

Definition scripted (listed : list (bool * Z)) (parallel : bool * Z) : host :=
  mkHost 4096 (Some "6.1.0") (Some (entries_of two_names))
         [] [] [] (0, 0) [] [] listed parallel.

Definition nothing_listed : host := scripted [(true, 0); (true, 0)] (false, 0).
Definition second_listed : host := scripted [(true, 0); (false, 3)] (true, 9).

End Fixture.

(** ** Further projections of a trace *)

(** The base paths the Modprobe objects of a trace were built over, and the
    load-list file names they were given. *)
Definition modprobe_paths (cs : list call) : list (list string) :=
  omap (fun c => match c with C_Modprobe p _ => Some p | _ => None end) cs.


Definition stat_paths (cs : list call) : list string :=
  omap (fun c => match c with C_stat p => Some p | _ => None end) cs.

Definition opened_paths (cs : list call) : list string :=
  omap (fun c => match c with C_open p _ => Some p | _ => None end) cs.

Definition closed_fds (cs : list call) : list Z :=
  omap (fun c => match c with C_close fd => Some fd | _ => None end) cs.

Definition deleted_modules (cs : list call) : list (string * list open_flag) :=
  omap (fun c => match c with C_delete_module n fl => Some (n, fl) | _ => None end) cs.

(** [dir_path] of the loop over the candidate directories. *)
Definition dir_path_of (module_dir : string) : string :=
  (MODULE_BASE_DIR +:+ "/") +:+ module_dir.

(** The file whose presence [GetModuleLoadList] tests, and the two names it
    can answer. *)
Definition recovery_path (dir_path : string) : string :=
  dir_path +:+ "/" +:+ "modules.load.recovery".

Definition load_file_name (f : string) : Prop :=
  f = "modules.load.recovery" \/ f = "modules.load".

(** One attempt at a directory, as [LoadKernelModules] makes it: the [stat]
    for its recovery load list, the Modprobe object over it, and the load
    called on that object. An attempt is given by the directory path, the
    load list chosen and the load call. *)
Definition step_calls (s : string * string * call) : list call :=
  let '(dir_path, load_file, load) := s in
  [C_stat (recovery_path dir_path); C_Modprobe [dir_path] load_file; load].

Definition step_path (s : string * string * call) : string := fst (fst s).

Definition is_listed_call (c : call) : bool :=
  match c with C_LoadListedModules _ _ => true | _ => false end.

Definition listed_step (s : string * string * call) : Prop :=
  load_file_name (snd (fst s)) /\ is_listed_call (snd s) = true.

Definition parallel_step (s : string * string * call) : Prop :=
  load_file_name (snd (fst s)) /\ is_parallel (snd s) = true.

(** ** Sequences of member calls on one Modprobe object *)

Inductive op :=
| Op_Insmod (path_name parameters : string)
| Op_Rmmod (module_name : string)
| Op_ModuleExists (module_name : string).

Definition is_insmod (o : op) : bool :=
  match o with Op_Insmod _ _ => true | _ => false end.

Section Sequences.
Context {K : Type} `{HS : Sys K}.

Definition run_op (o : op) (this : Modprobe) : M K (bool * Modprobe) :=
  match o with
  | Op_Insmod path_name parameters => Insmod path_name parameters this
  | Op_Rmmod module_name => Rmmod module_name this
  | Op_ModuleExists module_name => ModuleExists module_name this
  end.

Fixpoint run_ops (ops : list op) (this : Modprobe) : M K Modprobe :=
  match ops with
  | [] => ret this
  | o :: rest => let* (_, this) := run_op o this in run_ops rest this
  end.

(** Every canonical name in [module_loaded_] is the canonical name of a
    path in [module_loaded_paths_]. *)
Definition canonical_backed (this : Modprobe) : Prop :=
  forall c, c ∈ module_loaded_ this ->
            exists p, p ∈ module_loaded_paths_ this /\ MakeCanonical p = c.

End Sequences.

(** ** The class [UniqueFd]

    Objects are told apart by their address, which the move assignment
    compares; a store maps the address of each live object to the value of
    its member [fd]. The member functions are defined for live objects; an
    address that holds no object reads as [-1]. *)

Module UniqueFd.
Section Members.
Context {K : Type} `{HS : Sys K}.

Definition fd_of (this : nat) (st : gmap nat Z) : Z := default (-1) (st !! this).

(** [UniqueFd(const std::string& path)] *)
Definition ctor (this : nat) (path : string) (st : gmap nat Z) : M K (gmap nat Z) :=
  let* fd := open path insmod_flags in
  ret (<[this := fd]> st).

(** [~UniqueFd()] *)
Definition dtor (this : nat) (st : gmap nat Z) : M K (gmap nat Z) :=
  let fd := fd_of this st in
  when (negb (fd =? -1)) (close fd);;;
  ret (delete this st).

(** [UniqueFd(UniqueFd&& other)]: [this] is the address of the new object. *)
Definition move_ctor (this other : nat) (st : gmap nat Z) : gmap nat Z :=
  let st := <[this := fd_of other st]> st in
  <[other := -1]> st.

(** [UniqueFd& operator=(UniqueFd&& other)] *)
Definition move_assign (this other : nat) (st : gmap nat Z) : M K (gmap nat Z) :=
  if negb (Nat.eqb this other) then
    let fd := fd_of this st in
    when (negb (fd =? -1)) (close fd);;;
    let st := <[this := fd_of other st]> st in
    let st := <[other := -1]> st in
    ret st
  else ret st.

(** [explicit operator bool() const] and [get() const] *)
Definition valid (this : nat) (st : gmap nat Z) : bool := negb (fd_of this st =? -1).

Definition get (this : nat) (st : gmap nat Z) : Z := fd_of this st.

(** No descriptor is held by two objects. *)
Definition exclusive (st : gmap nat Z) : Prop :=
  forall a b fd, st !! a = Some fd -> st !! b = Some fd -> fd <> -1 -> a = b.

End Members.
End UniqueFd.

(** ** Further concrete inputs *)

Module Scenarios.
Import Fixture.

(** A host with 16K pages whose modules sit in a directory named after the
    release alone. *)
Definition large_names : list string := ["6.1.0-gki"; "6.1.0"].
Definition large_pages : host := with_dirs "6.1.0" 16384 large_names.

(** The three directories of [three_names] in another order. *)
Definition three_names_shuffled : list string := ["5.4.0"; "6.1.0-gki"; "6.1"].

(** A session on one loader object. *)
Definition wifi_session : list op :=
  [Op_ModuleExists "wifi_core"; Op_Insmod wifi_path ""; Op_Insmod wifi_path "";
   Op_Rmmod "wifi-core"].

(** A regular file named as the release, beside a directory of the same
    version. *)
Definition DT_REG : Z := 8.

Definition stray_entries : list dirent :=
  [Dirent DT_REG "6.1.0"; Dirent DT_DIR "6.1-b"].

Definition stray_file : host :=
  mkHost 4096 (Some "6.1.0") (Some stray_entries)
         [] [] [] (0, 0) [] [] [] (true, 0).

(** A kernel whose [finit_module] answers 2^32, which is 0 as an [int]. *)
Definition wide_answer : host :=
  mkHost 4096 (Some "6.1.0") None
         [(wifi_path, 33188)] [(wifi_path, 3)]
         [(4294967296, 0)] (4294967296, 0)
         [(wifi_path, "wifi_core"); ("wifi-core", "wifi_core")]
         [("wifi_core", [wifi_path])] [] (true, 0).

(** Stores of descriptor handles. *)
Definition one_handle : gmap nat Z := {[ 1%nat := 3 ]}.
Definition two_handles : gmap nat Z := <[ 2%nat := 4 ]> one_handle.

End Scenarios.

(** * Properties *)

Ltac run :=
  unfold bind, ret, when, print, uname, opendir, stat, open, close, finit_module,
    delete_module, hardware_concurrency, GetDependencies, new_Modprobe,
    LoadListedModules, LoadModulesParallel, record_call; simpl.

Section Orchestrator.
Context {K : Type} `{HS : Sys K}.

Lemma after_uname_calls w : calls (after_uname w) = calls w ++ [C_uname].
Proof.
  unfold after_uname. run.
  destruct (CStr.sscanf_d_dot_d _ 0 0) as [[n a] b].
  destruct (bool_decide _), (negb _); reflexivity.
Qed.

Lemma after_uname_kst w : kst (after_uname w) = kst w.
Proof.
  unfold after_uname. run.
  destruct (CStr.sscanf_d_dot_d _ 0 0) as [[n a] b].
  destruct (bool_decide _), (negb _); reflexivity.
Qed.

(** C9: when [/lib/modules] cannot be opened, [LoadKernelModules] answers
    [true], leaves [modules_loaded] as the caller passed it, and makes no
    call beyond [uname] and the failed [opendir]: no Modprobe object is
    built and no load is attempted; the kernel state is untouched. *)
Theorem LoadKernelModules_no_base_dir (modules_loaded : Z) (w : World K) :
  sys_opendir MODULE_BASE_DIR (kst w) = None ->
  fst (LoadKernelModules modules_loaded w) = (true, modules_loaded)
  /\ calls_since w (snd (LoadKernelModules modules_loaded w))
     = [C_uname; C_opendir MODULE_BASE_DIR]
  /\ kst (snd (LoadKernelModules modules_loaded w)) = kst w.
Proof.
  intros Hdir. unfold LoadKernelModules, calls_since. run.
  destruct (CStr.sscanf_d_dot_d _ 0 0) as [[n a] b].
  destruct (bool_decide _), (negb _); simpl; rewrite Hdir; simpl;
    rewrite <- ?app_assoc, drop_app_length; auto.
Qed.

End Orchestrator.

Section Loader.
Context {K : Type} `{HS : Sys K}.

Lemma finit_options_app cs cs' :
  finit_options (cs ++ cs') = finit_options cs ++ finit_options cs'.
Proof. unfold finit_options. apply omap_app. Qed.

(** When the file cannot be opened nothing else happens. *)
Lemma Insmod_open_failed path_name parameters this (w : World K) k1 :
  sys_open path_name insmod_flags (kst w) = (-1, k1) ->
  Insmod path_name parameters this w
  = (false, this, mkWorld k1 (calls w ++ [C_open path_name insmod_flags]) (cout w)).
Proof. intros Ho. unfold Insmod. run. fold insmod_flags. rewrite Ho. reflexivity. Qed.

(** The calls of an [Insmod] whose [open] succeeded: open, one
    [finit_module] with the composed option string, close. *)
Lemma Insmod_calls path_name parameters this (w : World K) fd k1 :
  sys_open path_name insmod_flags (kst w) = (fd, k1) ->
  fd <> -1 ->
  calls (snd (Insmod path_name parameters this w))
  = calls w ++ [C_open path_name insmod_flags;
                C_finit_module fd (Insmod_options path_name parameters this) 0;
                C_close fd].
Proof.
  intros Ho Hfd. unfold Insmod. run. fold insmod_flags. rewrite Ho.
  destruct (Z.eqb_spec fd (-1)) as [|_]; [contradiction|]. simpl.
  destruct (sys_finit_module _ _ _ _) as [[r e] k2]. simpl.
  destruct (negb (CStr.to_int r =? 0)); [destruct (e =? EEXIST)|]; simpl;
    rewrite <- !app_assoc; reflexivity.
Qed.

(** The registry after an [Insmod] whose [open] succeeded, by the answer of
    the kernel. *)
Lemma Insmod_result path_name parameters this (w : World K) fd k1 r e k2 :
  sys_open path_name insmod_flags (kst w) = (fd, k1) ->
  fd <> -1 ->
  sys_finit_module fd (Insmod_options path_name parameters this) 0 k1 = (r, e, k2) ->
  fst (Insmod path_name parameters this w)
  = if negb (CStr.to_int r =? 0) then
      if e =? EEXIST then
        (true, register_loaded path_name (MakeCanonical path_name)
                               (module_count_ this) this)
      else (false, this)
    else (true, register_loaded path_name (MakeCanonical path_name)
                                (module_count_ this + 1) this).
Proof.
  intros Ho Hfd Hf. unfold Insmod. run. fold insmod_flags. rewrite Ho.
  destruct (Z.eqb_spec fd (-1)) as [|_]; [contradiction|]. simpl.
  rewrite Hf. simpl.
  destruct (negb (CStr.to_int r =? 0)); [destruct (e =? EEXIST)|]; reflexivity.
Qed.

Lemma Rmmod_count module_name this (w : World K) :
  module_count_ (snd (fst (Rmmod module_name this w))) = module_count_ this.
Proof.
  unfold Rmmod. run. destruct (sys_delete_module _ _ _) as [[r e] k]. simpl.
  destruct (negb (CStr.to_int r =? 0)); reflexivity.
Qed.

(** C6: an [Insmod] that reaches the kernel issues exactly one
    [finit_module]; with configured options "param=1" and runtime parameters
    "param2=2" its option string is "param=1 param2=2"; in general the
    configured options come first, followed by one space and the runtime
    parameters, and with empty parameters the configured options are passed
    as they are. *)
Theorem Insmod_options_order path_name parameters this (w : World K) fd k1 :
  sys_open path_name insmod_flags (kst w) = (fd, k1) ->
  fd <> -1 ->
  let configured := default "" (module_options_ this !! MakeCanonical path_name) in
  let issued := finit_options (calls_since w (snd (Insmod path_name parameters this w))) in
  (configured = "param=1" -> parameters = "param2=2" -> issued = ["param=1 param2=2"])
  /\ (parameters <> "" -> issued = [configured +:+ " " +:+ parameters])
  /\ (parameters = "" -> issued = [configured]).
Proof.
  intros Ho Hfd configured issued.
  assert (Hi : issued = [Insmod_options path_name parameters this]).
  { unfold issued, calls_since. rewrite (Insmod_calls _ _ _ _ _ _ Ho Hfd).
    rewrite drop_app_length. reflexivity. }
  rewrite Hi. unfold Insmod_options. fold configured.
  replace (match module_options_ this !! MakeCanonical path_name with
           | Some second => second | None => "" end) with configured
    by (unfold configured; destruct (_ !! _); reflexivity).
  split; [|split].
  - intros -> ->. reflexivity.
  - intros Hp. destruct (String.eqb_spec parameters ""); [contradiction|reflexivity].
  - intros ->. reflexivity.
Qed.

(** C10: with no configured options for the canonical name and non-empty
    parameters, the option string handed to [finit_module] is one space
    followed by the parameters. *)
Theorem Insmod_options_leading_space path_name parameters this (w : World K) fd k1 :
  sys_open path_name insmod_flags (kst w) = (fd, k1) ->
  fd <> -1 ->
  module_options_ this !! MakeCanonical path_name = None ->
  parameters <> "" ->
  finit_options (calls_since w (snd (Insmod path_name parameters this w)))
  = [String " " parameters].
Proof.
  intros Ho Hfd Hnone Hp. unfold calls_since.
  rewrite (Insmod_calls _ _ _ _ _ _ Ho Hfd), drop_app_length.
  unfold Insmod_options. rewrite Hnone.
  destruct (String.eqb_spec parameters ""); [contradiction|reflexivity].
Qed.

(** C7: a successful [delete_module] makes [Rmmod] answer [true] and erase
    the canonical name from [module_loaded_], and nothing else: the path set,
    the count and the configuration are as before; a failed one makes it
    answer [false] with the object unchanged. Success and failure are those
    of the source: [ret], the answer of the call as an [int], is 0 or not. *)
Theorem Rmmod_frame module_name this (w : World K) r e k1 :
  sys_delete_module (MakeCanonical module_name) [O_NONBLOCK] (kst w) = (r, e, k1) ->
  let result := fst (Rmmod module_name this w) in
  let ret := CStr.to_int r in
  (ret = 0 ->
     fst result = true
     /\ module_loaded_ (snd result)
        = module_loaded_ this ∖ {[ MakeCanonical module_name ]}
     /\ module_loaded_paths_ (snd result) = module_loaded_paths_ this
     /\ module_count_ (snd result) = module_count_ this
     /\ module_options_ (snd result) = module_options_ this
     /\ module_blocklist_ (snd result) = module_blocklist_ this
     /\ blocklist_enabled (snd result) = blocklist_enabled this)
  /\ (ret <> 0 -> result = (false, this)).
Proof.
  intros Hd result ret. unfold result, ret, Rmmod. run. rewrite Hd. simpl.
  split.
  - intros ->. simpl. repeat split.
  - intros Hr. destruct (Z.eqb_spec (CStr.to_int r) 0); [contradiction|reflexivity].
Qed.

(** A blocklisted name is answered at once: one line on [std::cout], no
    call. *)
Lemma ModuleExists_blocked module_name this (w : World K) :
  blocklist_enabled this = true ->
  module_name ∈ module_blocklist_ this ->
  ModuleExists module_name this w
  = (false, this,
     mkWorld (kst w) (calls w)
             (cout w ++ ["module " +:+ module_name +:+ " is blocklisted"])).
Proof.
  intros He Hm. unfold ModuleExists. rewrite He.
  rewrite (bool_decide_eq_true_2 _ Hm). reflexivity.
Qed.

(** C8: [ModuleExists] answers [false] for a blocklisted name while the
    blocklist is enforced, without asking for the dependency list (it makes
    no call at all); otherwise it answers [false] when the dependency list
    is empty, and when [stat] on the first dependency fails or finds
    something that is not a regular file; and it always leaves the object
    as it found it. *)
Theorem ModuleExists_false_cases module_name this (w : World K) :
  let blocked :=
    blocklist_enabled this = true /\ module_name ∈ module_blocklist_ this in
  let deps := sys_GetDependencies this module_name (kst w) in
  let out := ModuleExists module_name this w in
  (blocked -> fst (fst out) = false /\ calls_since w (snd out) = []
              /\ kst (snd out) = kst w)
  /\ (~ blocked -> deps = [] -> fst (fst out) = false)
  /\ (~ blocked ->
      forall front rest, deps = front :: rest ->
        (sys_stat front (kst w) = None
         \/ exists st_mode, sys_stat front (kst w) = Some st_mode
                            /\ S_ISREG st_mode = false) ->
        fst (fst out) = false)
  /\ snd (fst out) = this.
Proof.
  intros blocked deps out. unfold out, calls_since.
  destruct (blocklist_enabled this && bool_decide (module_name ∈ module_blocklist_ this))
    eqn:Hb.
  - apply andb_true_iff in Hb as [He Hm]. apply bool_decide_eq_true in Hm.
    rewrite (ModuleExists_blocked _ _ _ He Hm). simpl. rewrite drop_all.
    repeat split; auto; intros Hn; exfalso; apply Hn; split; auto.
  - assert (Hnb : ~ blocked).
    { intros [He Hm]. rewrite He in Hb. simpl in Hb.
      apply bool_decide_eq_false in Hb. contradiction. }
    unfold ModuleExists. rewrite Hb. run. fold deps.
    split; [intros; contradiction|].
    destruct deps as [|front rest] eqn:Hdeps; simpl.
    + split; [reflexivity|]. split; [|reflexivity]. intros _ ? ? ?. discriminate.
    + split; [intros; discriminate|]. split; [|destruct (sys_stat front (kst w)) as [m|];
        simpl; [destruct (S_ISREG m)|]; reflexivity].
      intros _ f r' [= <- <-] Hcase.
      destruct Hcase as [-> | (m & -> & Hm)]; simpl; [reflexivity|].
      rewrite Hm. reflexivity.
Qed.

(** C4: when [finit_module] fails with [EEXIST], [Insmod] answers [true],
    adds the path to [module_loaded_paths_] and the canonical name to
    [module_loaded_], and leaves [module_count_] as it was. Hence a second
    [Insmod] of a module that finds it resident keeps the count of the first
    and has both names registered. For every [Insmod] the count either stays
    or grows by one, and it grows only when the insertion succeeded;
    [Rmmod] never changes it. Failure and success are those of the source:
    [ret], the answer of [finit_module] as an [int], is not 0 or is 0. *)
Theorem Insmod_already_exists path_name parameters this (w : World K) fd k1 r k2 :
  sys_open path_name insmod_flags (kst w) = (fd, k1) ->
  fd <> -1 ->
  sys_finit_module fd (Insmod_options path_name parameters this) 0 k1
    = (r, EEXIST, k2) ->
  CStr.to_int r <> 0 ->
  let result := fst (Insmod path_name parameters this w) in
  (fst result = true
   /\ module_loaded_paths_ (snd result) = {[ path_name ]} ∪ module_loaded_paths_ this
   /\ module_loaded_ (snd result) = {[ MakeCanonical path_name ]} ∪ module_loaded_ this
   /\ module_count_ (snd result) = module_count_ this)
  /\ (forall parameters0 this0 (w0 : World K),
        Insmod path_name parameters0 this0 w0 = (true, this, w) ->
        module_count_ (snd result) = module_count_ this
        /\ path_name ∈ module_loaded_paths_ (snd result)
        /\ MakeCanonical path_name ∈ module_loaded_ (snd result))
  /\ (forall path' parameters' this' (w' : World K),
        let after := snd (fst (Insmod path' parameters' this' w')) in
        module_count_ after = module_count_ this'
        \/ (module_count_ after = module_count_ this' + 1
            /\ exists fd' k1' r' e' k2',
                 sys_open path' insmod_flags (kst w') = (fd', k1')
                 /\ fd' <> -1
                 /\ sys_finit_module fd' (Insmod_options path' parameters' this') 0 k1'
                    = (r', e', k2')
                 /\ CStr.to_int r' = 0))
  /\ (forall module_name this' (w' : World K),
        module_count_ (snd (fst (Rmmod module_name this' w'))) = module_count_ this').
Proof.
  intros Ho Hfd Hf Hr result.
  assert (Hres : result = (true, register_loaded path_name (MakeCanonical path_name)
                                   (module_count_ this) this)).
  { unfold result. rewrite (Insmod_result _ _ _ _ _ _ _ _ _ Ho Hfd Hf).
    destruct (Z.eqb_spec (CStr.to_int r) 0); [contradiction|]. reflexivity. }
  rewrite Hres. simpl.
  split; [repeat split|split; [|split]].
  - intros ? ? ? _. split; [reflexivity|]. split; set_solver.
  - intros path' parameters' this' w'.
    destruct (sys_open path' insmod_flags (kst w')) as [fd' k1'] eqn:Ho'.
    destruct (Z.eq_dec fd' (-1)) as [->|Hfd'].
    + rewrite (Insmod_open_failed _ _ _ _ _ Ho'). left. reflexivity.
    + destruct (sys_finit_module fd' (Insmod_options path' parameters' this') 0 k1')
        as [[r' e'] k2'] eqn:Hf'.
      rewrite (Insmod_result _ _ _ _ _ _ _ _ _ Ho' Hfd' Hf').
      destruct (Z.eqb_spec (CStr.to_int r') 0) as [Hr'|Hr']; simpl.
      * right. split; [reflexivity|]. exists fd', k1', r', e', k2'. auto.
      * left. destruct (e' =? EEXIST); reflexivity.
  - intros. apply Rmmod_count.
Qed.

End Loader.

Section Selector.
Context {K : Type} `{HS : Sys K}.

Implicit Types (entries : list dirent) (module_dirs : list string) (w : World K).

(** The three ways an entry passes through the [readdir] loop. *)
Lemma read_entries_not_dir rs sfx major minor e entries module_dirs :
  d_type e <> DT_DIR ->
  read_entries rs sfx major minor (e :: entries) module_dirs
  = read_entries rs sfx major minor entries module_dirs.
Proof.
  intros Ht. simpl. destruct (Z.eqb_spec (d_type e) DT_DIR); [contradiction|].
  reflexivity.
Qed.

Lemma read_entries_release_specific rs sfx major minor e entries module_dirs w :
  d_type e = DT_DIR ->
  d_name e = rs ->
  fst (read_entries rs sfx major minor (e :: entries) module_dirs w) = [rs].
Proof.
  intros Ht Hn. simpl. rewrite Ht, Hn, String.eqb_refl. reflexivity.
Qed.

(** The page-size test of the loop compares the host's suffix with itself,
    so an entry that is a directory and not the release-specific one stays
    or goes by its version prefix alone. *)
Lemma read_entries_by_version rs major minor e entries module_dirs n a b :
  d_type e = DT_DIR ->
  d_name e <> rs ->
  CStr.sscanf_d_dot_d (d_name e) 0 0 = (n, a, b) ->
  read_entries rs GetPageSizeSuffix major minor (e :: entries) module_dirs
  = read_entries rs GetPageSizeSuffix major minor entries
      (if (n =? 2) && (a =? major) && (b =? minor)
       then module_dirs ++ [d_name e] else module_dirs).
Proof.
  intros Ht Hn Hs. simpl. rewrite Ht, Hs. simpl.
  destruct (String.eqb_spec (d_name e) rs); [contradiction|].
  rewrite String.eqb_refl, andb_false_r.
  destruct (n =? 2), (a =? major), (b =? minor); reflexivity.
Qed.

Lemma read_entries_exact rs sfx major minor entries :
  forall module_dirs w,
    (exists e, In e entries /\ d_type e = DT_DIR /\ d_name e = rs) ->
    fst (read_entries rs sfx major minor entries module_dirs w) = [rs].
Proof.
  induction entries as [|e entries IH]; intros module_dirs w (x & Hin & Ht & Hn).
  - destruct Hin.
  - destruct (Z.eq_dec (d_type e) DT_DIR) as [Hd|Hd].
    + destruct (String.eqb_spec (d_name e) rs) as [He|He].
      * apply read_entries_release_specific; assumption.
      * assert (Hx : exists e', In e' entries /\ d_type e' = DT_DIR /\ d_name e' = rs).
        { destruct Hin as [->|Hin]; [contradiction|]. eauto. }
        simpl. rewrite Hd. simpl.
        destruct (String.eqb_spec (d_name e) rs) as [|_]; [contradiction|].
        destruct (negb _ && negb _); [apply IH; assumption|].
        destruct (CStr.sscanf_d_dot_d (d_name e) 0 0) as [[n a] b].
        destruct (negb _ || negb _ || negb _); apply IH; assumption.
    + rewrite read_entries_not_dir by assumption.
      apply IH. destruct Hin as [->|Hin]; [contradiction|]. eauto.
Qed.

(** [std_sort] rearranges its argument into ascending order. *)
Lemma lt_asym (a b : string) : CStr.lt a b = true -> CStr.lt b a = false.
Proof.
  unfold CStr.lt, String.ltb. rewrite (String.compare_antisym a b).
  destruct (String.compare b a); simpl; congruence.
Qed.

Lemma sort_insert_perm x (l : list string) : Permutation (sort_insert x l) (x :: l).
Proof.
  induction l as [|y l IH]; simpl; [reflexivity|].
  destruct (CStr.lt y x); [|reflexivity].
  rewrite IH. apply perm_swap.
Qed.

Lemma std_sort_perm (l : list string) : Permutation (std_sort l) l.
Proof.
  induction l as [|x l IH]; simpl; [reflexivity|].
  rewrite sort_insert_perm. constructor. exact IH.
Qed.

Lemma sort_insert_sorted x (l : list string) :
  Sorted not_after l -> Sorted not_after (sort_insert x l).
Proof.
  induction l as [|y l IH]; intros Hs; simpl.
  - repeat constructor.
  - destruct (CStr.lt y x) eqn:Hyx.
    + inversion Hs as [|? ? Hl Hhd]; subst. constructor; [apply IH; exact Hl|].
      destruct l as [|z l]; simpl.
      * constructor. apply lt_asym. exact Hyx.
      * inversion Hhd; subst.
        destruct (CStr.lt z x); constructor; [assumption|].
        apply lt_asym. exact Hyx.
    + constructor; [exact Hs|]. constructor. exact Hyx.
Qed.

Lemma std_sort_sorted (l : list string) : Sorted not_after (std_sort l).
Proof.
  induction l as [|x l IH]; simpl; [constructor|].
  apply sort_insert_sorted. exact IH.
Qed.

(** [LoadKernelModules], once the base directory is open, selects the
    candidate directories and loads from them. *)
Lemma LoadKernelModules_opened modules_loaded w entries :
  sys_opendir MODULE_BASE_DIR (kst w) = Some entries ->
  LoadKernelModules modules_loaded w
  = (let* module_dirs := candidate_dirs (default "" (sys_uname (kst w))) entries in
     load_from module_dirs modules_loaded)
      (record_call (C_opendir MODULE_BASE_DIR) (after_uname w) (kst w)).
Proof.
  intros Hdir.
  unfold LoadKernelModules, candidate_dirs, load_from, after_uname.
  unfold bind, uname, opendir, when, print, ret, record_call. simpl.
  destruct (CStr.sscanf_d_dot_d _ 0 0) as [[n a] b].
  destruct (bool_decide _), (negb (n =? 2)); simpl; rewrite Hdir;
    match goal with
    | |- context [read_entries ?rs ?sfx ?x ?y ?es ?acc ?w0] =>
        destruct (read_entries rs sfx x y es acc w0)
    end; reflexivity.
Qed.

Lemma read_entries_filter rs major minor entries :
  forall module_dirs w,
    (forall e, In e entries -> d_type e = DT_DIR -> d_name e <> rs) ->
    fst (read_entries rs GetPageSizeSuffix major minor entries module_dirs w)
    = module_dirs
      ++ List.filter (same_version major minor) (map d_name (List.filter is_dir entries)).
Proof.
  induction entries as [|e entries IH]; intros module_dirs w Hne.
  - simpl. rewrite app_nil_r. reflexivity.
  - assert (Hne' : forall e', In e' entries -> d_type e' = DT_DIR -> d_name e' <> rs)
      by (intros; apply Hne; simpl; auto).
    destruct (Z.eq_dec (d_type e) DT_DIR) as [Hd|Hd].
    + destruct (CStr.sscanf_d_dot_d (d_name e) 0 0) as [[n a] b] eqn:Hs.
      rewrite (read_entries_by_version rs major minor e entries module_dirs n a b Hd
                 (Hne e (or_introl eq_refl) Hd) Hs).
      rewrite IH by assumption.
      assert (His : is_dir e = true) by (unfold is_dir; rewrite Hd; reflexivity).
      assert (Hsv : same_version major minor (d_name e)
                    = (n =? 2) && (a =? major) && (b =? minor))
        by (unfold same_version; rewrite Hs; reflexivity).
      cbn [List.filter]. rewrite His. cbn [map List.filter]. rewrite Hsv.
      destruct ((n =? 2) && (a =? major) && (b =? minor)); simpl;
        rewrite <- ?app_assoc; reflexivity.
    + rewrite read_entries_not_dir by assumption.
      rewrite IH by assumption.
      assert (His : is_dir e = false)
        by (unfold is_dir; destruct (Z.eqb_spec (d_type e) DT_DIR); congruence).
      cbn [List.filter]. rewrite His. reflexivity.
Qed.

(** Without a release-specific directory the candidates are the directories
    that start with the host's [major.minor], sorted; the page-size suffix
    of a name plays no part. *)
Lemma candidate_dirs_by_version release entries w n major minor :
  CStr.sscanf_d_dot_d release 0 0 = (n, major, minor) ->
  (forall e, In e entries -> d_type e = DT_DIR ->
             d_name e <> release +:+ GetPageSizeSuffix) ->
  fst (candidate_dirs release entries w)
  = std_sort (List.filter (same_version major minor)
                          (map d_name (List.filter is_dir entries))).
Proof.
  intros Hs Hne. unfold candidate_dirs. rewrite Hs. unfold bind, ret.
  pose proof (read_entries_filter (release +:+ GetPageSizeSuffix) major minor
                entries [] w Hne) as Hr.
  destruct (read_entries _ _ _ _ _ _ _) as [dirs w1]. simpl in *.
  rewrite Hr. reflexivity.
Qed.

(** C2, as the code has it: for release "6.1.0" on a host with the empty
    page-size suffix, and the directories "6.1.0-gki", "6.1" and "5.4.0" in
    any order, the candidate list is "6.1" followed by "6.1.0-gki": no entry
    is named "6.1.0", both names that start with 6.1 are kept and sorted,
    and "5.4.0" is dropped. *)
Theorem candidates_6_1_0 entries w :
  GetPageSizeSuffix = "" ->
  Permutation entries
    [Dirent DT_DIR "6.1.0-gki"; Dirent DT_DIR "6.1"; Dirent DT_DIR "5.4.0"] ->
  fst (candidate_dirs "6.1.0" entries w) = ["6.1"; "6.1.0-gki"].
Proof.
  intros Hsfx Hperm.
  symmetry in Hperm. apply permutations_Permutation in Hperm.
  rewrite (candidate_dirs_by_version "6.1.0" entries w 2 6 1).
  - cbn in Hperm.
    repeat (apply elem_of_cons in Hperm as [->|Hperm]);
      [vm_compute; reflexivity ..|].
    apply elem_of_nil in Hperm. destruct Hperm.
  - vm_compute. reflexivity.
  - rewrite Hsfx. intros e Hin _.
    cbn in Hperm.
    repeat (apply elem_of_cons in Hperm as [->|Hperm]);
      [repeat (destruct Hin as [<-|Hin]; [discriminate|]); destruct Hin ..|].
    apply elem_of_nil in Hperm. destruct Hperm.
Qed.

End Selector.

Section Fallback.
Context {K : Type} `{HS : Sys K}.

Implicit Types (w : World K) (module_dirs : list string).

Lemma listed_counts_app cs cs' :
  listed_counts (cs ++ cs') = listed_counts cs ++ listed_counts cs'.
Proof. unfold listed_counts. apply omap_app. Qed.

Lemma parallel_loads_app cs cs' :
  parallel_loads (cs ++ cs') = parallel_loads cs ++ parallel_loads cs'.
Proof. unfold parallel_loads. apply List.filter_app. Qed.

Lemma last_nonempty (l : list Z) : forall z a b, List.last (z :: l) a = List.last (z :: l) b.
Proof. induction l as [|y l IH]; intros z a b; [reflexivity|]. apply (IH y a b). Qed.

(** One turn of the loop over the candidate directories: a [stat] for the
    load list, one Modprobe object, one ordered-list load; the loop returns
    there when the count read back is positive. *)
Lemma try_dirs_cons module_dir rest modules_loaded w :
  exists path f r c w3,
    calls w3 = calls w ++ [C_stat path; C_Modprobe [(MODULE_BASE_DIR +:+ "/") +:+ module_dir] f;
                           C_LoadListedModules r c]
    /\ try_dirs (module_dir :: rest) modules_loaded w
       = if c >? 0
         then (Some r, c,
               mkWorld (kst w3) (calls w3)
                 (cout w3 ++ ["Loaded " +:+ pretty c +:+ " modules from "
                              +:+ (MODULE_BASE_DIR +:+ "/") +:+ module_dir]))
         else try_dirs rest c w3.
Proof.
  cbn [try_dirs]. unfold GetModuleLoadList. run.
  set (dir_path := (MODULE_BASE_DIR +:+ "/") +:+ module_dir).
  set (path := dir_path +:+ "/" +:+ "modules.load.recovery").
  destruct (sys_stat path (kst w)) as [st|]; simpl.
  - destruct (sys_Modprobe [dir_path] "modules.load.recovery" (kst w)) as [m k1]. simpl.
    destruct (sys_LoadListedModules m k1) as [[r m'] k2]. simpl.
    exists path, "modules.load.recovery", r, (GetModuleCount m'),
      (mkWorld k2 (calls w ++ [C_stat path; C_Modprobe [dir_path] "modules.load.recovery";
                               C_LoadListedModules r (GetModuleCount m')]) (cout w)).
    split; [reflexivity|]. rewrite <- ?app_assoc. simpl.
    destruct (GetModuleCount m' >? 0); reflexivity.
  - destruct (sys_Modprobe [dir_path] "modules.load" (kst w)) as [m k1]. simpl.
    destruct (sys_LoadListedModules m k1) as [[r m'] k2]. simpl.
    exists path, "modules.load", r, (GetModuleCount m'),
      (mkWorld k2 (calls w ++ [C_stat path; C_Modprobe [dir_path] "modules.load";
                               C_LoadListedModules r (GetModuleCount m')]) (cout w)).
    split; [reflexivity|]. rewrite <- ?app_assoc. simpl.
    destruct (GetModuleCount m' >? 0); reflexivity.
Qed.

(** The calls of the whole loop. If it returns, its last call is an
    ordered-list load with a positive count, which is what the caller gets,
    and every load before it read back a count that is not positive. If it
    falls through, every candidate was loaded from and none read back a
    positive count. No parallel load happens inside the loop. *)
Lemma try_dirs_trace module_dirs :
  forall modules_loaded w,
  exists evs,
    calls (snd (try_dirs module_dirs modules_loaded w)) = calls w ++ evs
    /\ parallel_loads evs = []
    /\ match fst (try_dirs module_dirs modules_loaded w) with
       | (Some retval, count) =>
           exists pre, evs = pre ++ [C_LoadListedModules retval count]
                       /\ count > 0
                       /\ Forall (fun c => c <= 0) (listed_counts pre)
       | (None, count) =>
           Forall (fun c => c <= 0) (listed_counts evs)
           /\ length (listed_counts evs) = length module_dirs
           /\ count = List.last (listed_counts evs) modules_loaded
       end.
Proof.
  induction module_dirs as [|d rest IH]; intros modules_loaded w.
  - exists []. simpl. rewrite app_nil_r. repeat split; constructor.
  - destruct (try_dirs_cons d rest modules_loaded w) as (path & f & r & c & w3 & Hc & ->).
    destruct (c >? 0) eqn:Hpos.
    + exists [C_stat path; C_Modprobe [(MODULE_BASE_DIR +:+ "/") +:+ d] f;
              C_LoadListedModules r c].
      simpl. split; [assumption|]. split; [reflexivity|].
      exists [C_stat path; C_Modprobe [(MODULE_BASE_DIR +:+ "/") +:+ d] f].
      repeat split; [lia|constructor].
    + destruct (IH c w3) as (evs & Hcalls & Hpar & Hrest).
      exists ([C_stat path; C_Modprobe [(MODULE_BASE_DIR +:+ "/") +:+ d] f;
               C_LoadListedModules r c] ++ evs).
      split; [rewrite Hcalls, Hc, <- app_assoc; reflexivity|].
      split; [rewrite parallel_loads_app, Hpar; reflexivity|].
      destruct (fst (try_dirs rest c w3)) as [[retval|] count].
      * destruct Hrest as (pre & -> & Hgt & Hall).
        exists ([C_stat path; C_Modprobe [(MODULE_BASE_DIR +:+ "/") +:+ d] f;
                 C_LoadListedModules r c] ++ pre).
        split; [rewrite <- app_assoc; reflexivity|]. split; [assumption|].
        rewrite listed_counts_app. apply Forall_app. split; [|assumption].
        simpl. constructor; [lia|constructor].
      * destruct Hrest as (Hall & Hlen & Hlast).
        rewrite listed_counts_app. simpl.
        split; [constructor; [lia|assumption]|].
        split; [rewrite Hlen; reflexivity|].
        rewrite Hlast. destruct (listed_counts evs) as [|z l]; [reflexivity|].
        change (List.last (c :: z :: l) modules_loaded)
          with (List.last (z :: l) modules_loaded).
        apply last_nonempty.
Qed.



(** The [readdir] loop only writes to [std::cout]: the vector it builds does
    not depend on the world, and it makes no call. *)
Lemma read_entries_world rs sfx major minor entries :
  forall module_dirs w w',
    fst (read_entries rs sfx major minor entries module_dirs w)
    = fst (read_entries rs sfx major minor entries module_dirs w')
    /\ calls (snd (read_entries rs sfx major minor entries module_dirs w)) = calls w
    /\ kst (snd (read_entries rs sfx major minor entries module_dirs w)) = kst w.
Proof.
  induction entries as [|e entries IH]; intros module_dirs w w'; [auto|].
  simpl. destruct (negb (d_type e =? DT_DIR)); [apply IH|].
  destruct (String.eqb (d_name e) rs); [auto|].
  destruct (negb _ && negb _); [apply IH|].
  destruct (CStr.sscanf_d_dot_d (d_name e) 0 0) as [[n a] b].
  destruct (negb _ || negb _ || negb _); apply IH.
Qed.

Lemma candidate_dirs_world release entries w w' :
  fst (candidate_dirs release entries w) = fst (candidate_dirs release entries w')
  /\ calls (snd (candidate_dirs release entries w)) = calls w
  /\ kst (snd (candidate_dirs release entries w)) = kst w.
Proof.
  unfold candidate_dirs.
  destruct (CStr.sscanf_d_dot_d release 0 0) as [[n major] minor].
  unfold bind, ret.
  destruct (read_entries_world (release +:+ GetPageSizeSuffix) GetPageSizeSuffix
              major minor entries [] w w') as (Hf & Hc & Hk).
  destruct (read_entries _ _ _ _ _ _ w) as [dirs w1].
  destruct (read_entries _ _ _ _ _ _ w') as [dirs' w1'].
  simpl in *. subst. auto.
Qed.

(** The calls of [load_from]: either the loop returned at an ordered-list
    load with a positive count, or every candidate read back a count that is
    not positive and the calls end with the fallback: the [stat] for the
    load list of the base directory, one Modprobe object over the base
    directory, one parallel load. *)
Lemma load_from_trace module_dirs modules_loaded w :
  exists evs,
    calls (snd (load_from module_dirs modules_loaded w)) = calls w ++ evs
    /\ ((exists pre r c,
           evs = pre ++ [C_LoadListedModules r c]
           /\ c > 0
           /\ Forall (fun c' => c' <= 0) (listed_counts pre)
           /\ parallel_loads pre = []
           /\ fst (load_from module_dirs modules_loaded w) = (r, c))
        \/ (exists pre path f n r c,
              evs = pre ++ [C_stat path; C_Modprobe [MODULE_BASE_DIR] f;
                            C_LoadModulesParallel n r c]
              /\ Forall (fun c' => c' <= 0) (listed_counts pre)
              /\ length (listed_counts pre) = length module_dirs
              /\ parallel_loads pre = []
              /\ fst (load_from module_dirs modules_loaded w)
                 = (if c >? 0 then r else true, c))).
Proof.
  destruct (try_dirs_trace module_dirs modules_loaded w) as (evs & Hcalls & Hpar & Hcase).
  unfold load_from, bind.
  destruct (try_dirs module_dirs modules_loaded w) as [[[retval|] count] w1];
    simpl in Hcalls, Hcase.
  - exists evs. split; [assumption|]. left.
    destruct Hcase as (pre & -> & Hgt & Hall).
    exists pre, retval, count. rewrite parallel_loads_app in Hpar.
    apply app_eq_nil in Hpar as [Hpar _]. auto.
  - destruct Hcase as (Hall & Hlen & _).
    unfold GetModuleLoadList. run.
    set (path := MODULE_BASE_DIR +:+ "/" +:+ "modules.load.recovery").
    destruct (sys_stat path (kst w1)) as [st|]; simpl.
    + destruct (sys_Modprobe [MODULE_BASE_DIR] "modules.load.recovery" (kst w1))
        as [m k1]. simpl.
      destruct (sys_LoadModulesParallel (sys_hardware_concurrency k1) m k1)
        as [[r m'] k2]. simpl.
      exists (evs ++ [C_stat path; C_Modprobe [MODULE_BASE_DIR] "modules.load.recovery";
                      C_LoadModulesParallel (sys_hardware_concurrency k1) r
                                            (GetModuleCount m')]).
      split.
      * destruct (GetModuleCount m' >? 0); simpl; rewrite Hcalls, <- ?app_assoc;
          reflexivity.
      * right. exists evs, path, "modules.load.recovery",
          (sys_hardware_concurrency k1), r, (GetModuleCount m').
        repeat split; auto. destruct (GetModuleCount m' >? 0); reflexivity.
    + destruct (sys_Modprobe [MODULE_BASE_DIR] "modules.load" (kst w1))
        as [m k1]. simpl.
      destruct (sys_LoadModulesParallel (sys_hardware_concurrency k1) m k1)
        as [[r m'] k2]. simpl.
      exists (evs ++ [C_stat path; C_Modprobe [MODULE_BASE_DIR] "modules.load";
                      C_LoadModulesParallel (sys_hardware_concurrency k1) r
                                            (GetModuleCount m')]).
      split.
      * destruct (GetModuleCount m' >? 0); simpl; rewrite Hcalls, <- ?app_assoc;
          reflexivity.
      * right. exists evs, path, "modules.load",
          (sys_hardware_concurrency k1), r, (GetModuleCount m').
        repeat split; auto. destruct (GetModuleCount m' >? 0); reflexivity.
Qed.

(** The calls of [LoadKernelModules] once the base directory is open:
    [uname], [opendir], then those of [load_from] on the candidates. *)
Lemma LoadKernelModules_trace modules_loaded w entries :
  sys_opendir MODULE_BASE_DIR (kst w) = Some entries ->
  exists w2,
    LoadKernelModules modules_loaded w
    = load_from (fst (candidate_dirs (default "" (sys_uname (kst w))) entries w))
                modules_loaded w2
    /\ calls w2 = calls w ++ [C_uname; C_opendir MODULE_BASE_DIR].
Proof.
  intros Hdir. rewrite (LoadKernelModules_opened _ _ _ Hdir). unfold bind.
  set (w1 := record_call _ _ _).
  destruct (candidate_dirs_world (default "" (sys_uname (kst w))) entries w1 w)
    as (Hf & Hc & _).
  destruct (candidate_dirs _ entries w1) as [dirs w2]. simpl in Hf, Hc.
  exists w2. rewrite <- Hf. split; [reflexivity|].
  rewrite Hc. unfold w1, record_call. simpl.
  rewrite after_uname_calls, <- app_assoc. reflexivity.
Qed.


End Fallback.

(** * Concrete runs *)

Section Runs.
Import Fixture.

Example suffix_4k : GetPageSizeSuffix (HS := sys idle) = "".
Proof. reflexivity. Qed.

Example suffix_16k : GetPageSizeSuffix (HS := sys (with_dirs "6.1.0" 16384 [])) = "_16k".
Proof. vm_compute. reflexivity. Qed.

Example scan_release : CStr.sscanf_d_dot_d "6.1.0-gki" 0 0 = (2, 6, 1).
Proof. vm_compute. reflexivity. Qed.

Example scan_no_number : CStr.sscanf_d_dot_d "lost+found" 0 0 = (0, 0, 0).
Proof. vm_compute. reflexivity. Qed.

Example scan_one_number : CStr.sscanf_d_dot_d "6" 0 0 = (1, 6, 0).
Proof. vm_compute. reflexivity. Qed.

Example sort_two : std_sort ["6.1.0-gki"; "6.1"] = ["6.1"; "6.1.0-gki"].
Proof. vm_compute. reflexivity. Qed.

Example first_insmod_counts :
  fst first_insmod = (true, register_loaded wifi_path "wifi_core" 1 (loader [] [])).
Proof. vm_compute. reflexivity. Qed.

Example positive_count_returns :
  fst (LoadKernelModules (HS := sys second_listed) 0 boot) = (false, 3)
  /\ parallel_loads (calls (snd (LoadKernelModules (HS := sys second_listed) 0 boot))) = [].
Proof. vm_compute. split; reflexivity. Qed.

Example Rmmod_busy :
  fst (Rmmod (HS := sys busy) "wifi-core" loaded_wifi boot) = (false, loaded_wifi).
Proof. vm_compute. reflexivity. Qed.

(** C1, evaluated: on a host with 4K pages (empty page-size suffix) running
    release "6.1.0-gki", with the directories "6.1.0_16k" and "6.1.0" under
    the base directory, both names are candidates: the name that carries the
    suffix "_16k" is not excluded, and [LoadKernelModules] builds a Modprobe
    object over it. *)
Theorem suffixed_dir_not_excluded :
  GetPageSizeSuffix (HS := sys suffixed) = ""
  /\ fst (candidate_dirs (HS := sys suffixed) "6.1.0-gki" (entries_of suffixed_names) boot)
     = ["6.1.0"; "6.1.0_16k"]
  /\ In (C_Modprobe ["/lib/modules/6.1.0_16k"] "modules.load")
        (calls (snd (LoadKernelModules (HS := sys suffixed) 0 boot))).
Proof.
  split; [reflexivity|]. split; [vm_compute; reflexivity|].
  vm_compute. auto 10.
Qed.

(** C2 as stated fails: for release "6.1.0", the empty suffix and the
    directories "6.1.0-gki", "6.1", "5.4.0", the candidate list is not the
    single name "6.1.0-gki". *)
Lemma candidates_6_1_0_not_gki_only :
  GetPageSizeSuffix (HS := sys three_dirs) = ""
  /\ fst (candidate_dirs (HS := sys three_dirs) "6.1.0" (entries_of three_names) boot)
     <> ["6.1.0-gki"].
Proof. split; [reflexivity|]. vm_compute. discriminate. Qed.

(** The three directories in the order of the claim. *)
Lemma candidates_6_1_0_witness :
  fst (candidate_dirs (HS := sys three_dirs) "6.1.0" (entries_of three_names) boot)
  = ["6.1"; "6.1.0-gki"].
Proof.
  apply (candidates_6_1_0 (HS := sys three_dirs) (entries_of three_names) boot).
  - reflexivity.
  - reflexivity.
Defined.

(** No [/lib/modules] at all. *)
Lemma LoadKernelModules_no_base_dir_witness :
  fst (LoadKernelModules (HS := sys idle) 7 boot) = (true, 7)
  /\ calls_since boot (snd (LoadKernelModules (HS := sys idle) 7 boot))
     = [C_uname; C_opendir MODULE_BASE_DIR]
  /\ kst (snd (LoadKernelModules (HS := sys idle) 7 boot)) = kst boot.
Proof.
  apply (LoadKernelModules_no_base_dir (HS := sys idle) 7 boot). reflexivity.
Defined.


(** The example of the claim. *)
Lemma Insmod_options_order_witness :
  finit_options
    (calls_since boot
       (snd (Insmod (HS := sys wifi) wifi_path "param2=2"
                    (loader [("wifi_core", "param=1")] []) boot)))
  = ["param=1 param2=2"].
Proof.
  destruct (Insmod_options_order (HS := sys wifi) wifi_path "param2=2"
              (loader [("wifi_core", "param=1")] []) boot 3 0%nat)
    as (Hexample & _ & _).
  - reflexivity.
  - discriminate.
  - apply Hexample; [vm_compute|]; reflexivity.
Defined.

(** A parameter for a module without configured options. *)
Lemma Insmod_options_leading_space_witness :
  finit_options
    (calls_since boot
       (snd (Insmod (HS := sys wifi) wifi_path "debug=1" (loader [] []) boot)))
  = [" debug=1"].
Proof.
  apply (Insmod_options_leading_space (HS := sys wifi) wifi_path "debug=1"
           (loader [] []) boot 3 0%nat).
  - reflexivity.
  - discriminate.
  - vm_compute. reflexivity.
  - discriminate.
Defined.

(** The second of two insertions of the same file. *)
Lemma Insmod_already_exists_witness :
  fst (fst second_insmod) = true
  /\ module_loaded_paths_ (snd (fst second_insmod))
     = {[ wifi_path ]} ∪ module_loaded_paths_ (snd (fst first_insmod))
  /\ module_loaded_ (snd (fst second_insmod))
     = {[ "wifi_core" ]} ∪ module_loaded_ (snd (fst first_insmod))
  /\ module_count_ (snd (fst second_insmod)) = module_count_ (snd (fst first_insmod)).
Proof.
  apply (Insmod_already_exists (HS := sys wifi) wifi_path ""
           (snd (fst first_insmod)) (snd first_insmod) 3 1%nat (-1) 2%nat).
  - reflexivity.
  - discriminate.
  - vm_compute. reflexivity.
  - vm_compute. discriminate.
Defined.

(** Removing a registered module. *)
Lemma Rmmod_frame_witness :
  fst (fst (Rmmod (HS := sys wifi) "wifi-core" loaded_wifi boot)) = true
  /\ module_loaded_ (snd (fst (Rmmod (HS := sys wifi) "wifi-core" loaded_wifi boot)))
     = module_loaded_ loaded_wifi ∖ {[ "wifi_core" ]}
  /\ module_loaded_paths_ (snd (fst (Rmmod (HS := sys wifi) "wifi-core" loaded_wifi boot)))
     = module_loaded_paths_ loaded_wifi
  /\ module_count_ (snd (fst (Rmmod (HS := sys wifi) "wifi-core" loaded_wifi boot))) = 1.
Proof.
  destruct (Rmmod_frame (HS := sys wifi) "wifi-core" loaded_wifi boot 0 0 0%nat eq_refl)
    as [Hok _].
  destruct (Hok eq_refl) as (H1 & H2 & H3 & H4 & _).
  auto.
Defined.

(** A blocklisted name, and a name without dependencies. *)
Lemma ModuleExists_false_cases_witness :
  fst (fst (ModuleExists (HS := sys wifi) "wifi-core" (loader [] ["wifi-core"]) boot)) = false
  /\ calls_since boot
       (snd (ModuleExists (HS := sys wifi) "wifi-core" (loader [] ["wifi-core"]) boot))
     = []
  /\ fst (fst (ModuleExists (HS := sys wifi) "alias-only" (loader [] []) boot)) = false.
Proof.
  destruct (ModuleExists_false_cases (HS := sys wifi) "wifi-core"
              (loader [] ["wifi-core"]) boot) as (Hb & _).
  destruct (ModuleExists_false_cases (HS := sys wifi) "alias-only"
              (loader [] []) boot) as (_ & He & _).
  destruct Hb as (H1 & H2 & _); [split; [reflexivity|set_solver]|].
  split; [exact H1|]. split; [exact H2|].
  apply He; [|reflexivity]. intros [_ Hin]. set_solver.
Defined.

End Runs.

(** * Further properties of the directory selection *)

Section MoreSelector.
Context {K : Type} `{HS : Sys K}.

Implicit Types (entries : list dirent) (w : World K).

Lemma not_after_leb a b : not_after a b <-> String.leb a b = true.
Proof.
  unfold not_after, CStr.lt, String.ltb, String.leb.
  rewrite (String.compare_antisym b a).
  destruct (String.compare a b); simpl; split; congruence.
Qed.

Lemma not_after_trans : Transitive not_after.
Proof.
  intros a b c Hab Hbc. apply not_after_leb in Hab, Hbc. apply not_after_leb.
  pose proof (@transitivity _ String.le _ a b c) as Ht.
  unfold String.le in Ht. apply Is_true_true. apply Ht; apply Is_true_true; assumption.
Qed.

Lemma not_after_antisym : AntiSymm (=) not_after.
Proof.
  intros a b Hab Hba. apply not_after_leb in Hab, Hba.
  apply String.leb_antisym; assumption.
Qed.

Lemma filter_perm {A} (f : A -> bool) (l l' : list A) :
  Permutation l l' -> Permutation (List.filter f l) (List.filter f l').
Proof.
  induction 1 as [|x l l' _ IH|x y l|l l' l'' _ IH1 _ IH2]; simpl.
  - reflexivity.
  - destruct (f x); [constructor|]; exact IH.
  - destruct (f x), (f y); try reflexivity. apply perm_swap.
  - etransitivity; eassumption.
Qed.

(** Sorting forgets the order of its argument. *)
Lemma std_sort_perm_eq (l l' : list string) :
  Permutation l l' -> std_sort l = std_sort l'.
Proof.
  intros Hp.
  apply (@Sorted_unique _ not_after not_after_trans not_after_antisym).
  - apply std_sort_sorted.
  - apply std_sort_sorted.
  - rewrite !std_sort_perm. exact Hp.
Qed.

(** Whether the stream holds a directory named [rs]. *)
Lemma release_specific_dec rs entries :
  (exists e, In e entries /\ d_type e = DT_DIR /\ d_name e = rs)
  \/ (forall e, In e entries -> d_type e = DT_DIR -> d_name e <> rs).
Proof.
  induction entries as [|e entries [IH|IH]].
  - right. intros e [].
  - left. destruct IH as (x & Hin & Hx). exists x. simpl. auto.
  - destruct (Z.eq_dec (d_type e) DT_DIR) as [Hd|Hd];
      [destruct (string_dec (d_name e) rs) as [Hn|Hn]|].
    + left. exists e. simpl. auto.
    + right. intros x [<-|Hin] Ht; auto.
    + right. intros x [<-|Hin] Ht; [contradiction|auto].
Qed.

(** X1: the candidate list is in ascending byte order and is the same for
    every order in which [readdir] delivers the entries. *)
Theorem candidate_dirs_order_independent release entries entries' w w' :
  Permutation entries entries' ->
  fst (candidate_dirs release entries w) = fst (candidate_dirs release entries' w')
  /\ Sorted not_after (fst (candidate_dirs release entries w)).
Proof.
  intros Hp. split.
  - destruct (CStr.sscanf_d_dot_d release 0 0) as [[n major] minor] eqn:Hs.
    destruct (release_specific_dec (release +:+ GetPageSizeSuffix) entries)
      as [(e & Hin & Ht & Hn)|Hno].
    + unfold candidate_dirs. rewrite Hs. unfold bind, ret.
      pose proof (read_entries_exact (release +:+ GetPageSizeSuffix) GetPageSizeSuffix
                    major minor entries [] w (ex_intro _ e (conj Hin (conj Ht Hn)))) as H1.
      assert (Hin' : In e entries') by (eapply Permutation_in; eassumption).
      pose proof (read_entries_exact (release +:+ GetPageSizeSuffix) GetPageSizeSuffix
                    major minor entries' [] w' (ex_intro _ e (conj Hin' (conj Ht Hn)))) as H2.
      destruct (read_entries _ _ _ _ entries _ _) as [d1 w1].
      destruct (read_entries _ _ _ _ entries' _ _) as [d2 w2].
      simpl in *. congruence.
    + rewrite (candidate_dirs_by_version release entries w n major minor Hs Hno).
      rewrite (candidate_dirs_by_version release entries' w' n major minor Hs).
      * apply std_sort_perm_eq. apply filter_perm. apply Permutation_map.
        apply filter_perm. exact Hp.
      * intros e Hin. apply Hno. eapply Permutation_in; [symmetry|]; eassumption.
  - unfold candidate_dirs.
    destruct (CStr.sscanf_d_dot_d release 0 0) as [[n major] minor].
    unfold bind, ret. destruct (read_entries _ _ _ _ _ _ _) as [dirs w1]. simpl.
    apply std_sort_sorted.
Qed.

(** X2: every candidate is the name of an entry of type [DT_DIR], and it is
    either the release-specific name or a name whose leading [%d.%d] is the
    [major.minor] that the scan of the release string left behind (0 for a
    number the scan did not reach). *)
Theorem candidate_dirs_sound release entries w n major minor d :
  CStr.sscanf_d_dot_d release 0 0 = (n, major, minor) ->
  In d (fst (candidate_dirs release entries w)) ->
  (exists e, In e entries /\ d_type e = DT_DIR /\ d_name e = d)
  /\ (d = release +:+ GetPageSizeSuffix \/ same_version major minor d = true).
Proof.
  intros Hs Hd.
  destruct (release_specific_dec (release +:+ GetPageSizeSuffix) entries)
    as [(e & Hin & Ht & Hn)|Hno].
  - assert (Hc : fst (candidate_dirs release entries w) = [release +:+ GetPageSizeSuffix]).
    { unfold candidate_dirs. rewrite Hs. unfold bind, ret.
      pose proof (read_entries_exact (release +:+ GetPageSizeSuffix) GetPageSizeSuffix
                    major minor entries [] w (ex_intro _ e (conj Hin (conj Ht Hn)))) as H1.
      destruct (read_entries _ _ _ _ _ _ _) as [d1 w1]. simpl in *. rewrite H1.
      reflexivity. }
    rewrite Hc in Hd. destruct Hd as [<-|[]]. split; [|left; reflexivity].
    exists e. auto.
  - rewrite (candidate_dirs_by_version release entries w n major minor Hs Hno) in Hd.
    apply (Permutation_in _ (std_sort_perm _)) in Hd.
    apply filter_In in Hd as [Hd Hv]. apply in_map_iff in Hd as (e & <- & He).
    apply filter_In in He as [He Hdir]. split; [|right; exact Hv].
    exists e. unfold is_dir in Hdir. apply Z.eqb_eq in Hdir. auto.
Qed.

(** X3: when no directory carries the release-specific name, every
    directory whose name starts with the host's [major.minor] is a
    candidate, whatever follows the version in its name. *)
Theorem candidate_dirs_complete release entries w n major minor e :
  CStr.sscanf_d_dot_d release 0 0 = (n, major, minor) ->
  (forall e', In e' entries -> d_type e' = DT_DIR ->
              d_name e' <> release +:+ GetPageSizeSuffix) ->
  In e entries ->
  d_type e = DT_DIR ->
  same_version major minor (d_name e) = true ->
  In (d_name e) (fst (candidate_dirs release entries w)).
Proof.
  intros Hs Hno Hin Ht Hv.
  rewrite (candidate_dirs_by_version release entries w n major minor Hs Hno).
  apply (Permutation_in _ (Permutation_sym (std_sort_perm _))).
  apply filter_In. split; [|exact Hv].
  apply in_map. apply filter_In. split; [exact Hin|].
  unfold is_dir. apply Z.eqb_eq. exact Ht.
Qed.

Lemma append_nonempty (s t : string) : t <> "" -> s +:+ t <> s.
Proof.
  intros Ht. induction s as [|c s IH]; simpl.
  - exact Ht.
  - intros [= Heq]. apply IH. exact Heq.
Qed.

(** X4: on a host whose page size is above 4096 the suffix is not empty, so
    a directory named exactly as the release is not the release-specific
    one; it is still a candidate, by its version, when the release string
    scans to two numbers and no directory carries the suffixed name. *)
Theorem unsuffixed_release_dir_kept release entries w major minor e :
  4096 < to_size_t sys_page_size ->
  CStr.sscanf_d_dot_d release 0 0 = (2, major, minor) ->
  (forall e', In e' entries -> d_type e' = DT_DIR ->
              d_name e' <> release +:+ GetPageSizeSuffix) ->
  In e entries ->
  d_type e = DT_DIR ->
  d_name e = release ->
  GetPageSizeSuffix <> ""
  /\ release +:+ GetPageSizeSuffix <> release
  /\ In release (fst (candidate_dirs release entries w)).
Proof.
  intros Hpage Hs Hno Hin Ht Hn.
  assert (Hsfx : GetPageSizeSuffix <> "").
  { unfold GetPageSizeSuffix. destruct (Z.leb_spec (to_size_t sys_page_size) 4096); [lia|].
    discriminate. }
  split; [exact Hsfx|]. split; [apply append_nonempty; exact Hsfx|].
  rewrite (candidate_dirs_by_version release entries w 2 major minor Hs Hno).
  apply (Permutation_in _ (Permutation_sym (std_sort_perm _))).
  apply filter_In. split.
  - rewrite <- Hn. apply in_map. apply filter_In. split; [exact Hin|].
    unfold is_dir. apply Z.eqb_eq. exact Ht.
  - unfold same_version. rewrite Hs. rewrite !Z.eqb_refl. reflexivity.
Qed.

End MoreSelector.

(** * Further properties of the loading strategy *)

Section MoreOrchestrator.
Context {K : Type} `{HS : Sys K}.

Implicit Types (w : World K) (module_dirs : list string).

(** [GetModuleLoadList] makes one [stat], on
    [<dir>/modules.load.recovery], and nothing else; it answers
    "modules.load.recovery" when that [stat] succeeds, whatever it found,
    and "modules.load" when it fails, without looking for that file. *)
Lemma GetModuleLoadList_choice dir_path w :
  fst (GetModuleLoadList dir_path w)
  = match sys_stat (recovery_path dir_path) (kst w) with
    | Some _ => "modules.load.recovery"
    | None => "modules.load"
    end
  /\ calls_since w (snd (GetModuleLoadList dir_path w)) = [C_stat (recovery_path dir_path)]
  /\ kst (snd (GetModuleLoadList dir_path w)) = kst w
  /\ cout (snd (GetModuleLoadList dir_path w)) = cout w.
Proof.
  unfold GetModuleLoadList, calls_since, recovery_path. run.
  destruct (sys_stat _ (kst w)); simpl; rewrite drop_app_length; auto.
Qed.

Lemma modprobe_paths_app cs cs' :
  modprobe_paths (cs ++ cs') = modprobe_paths cs ++ modprobe_paths cs'.
Proof. unfold modprobe_paths. apply omap_app. Qed.



(** One turn of the loop, with the paths it uses. *)
Lemma try_dirs_step module_dir rest modules_loaded w :
  exists f r c w3,
    load_file_name f
    /\ calls w3 = calls w ++ [C_stat (recovery_path (dir_path_of module_dir));
                              C_Modprobe [dir_path_of module_dir] f;
                              C_LoadListedModules r c]
    /\ fst (try_dirs (module_dir :: rest) modules_loaded w)
       = (if c >? 0 then (Some r, c) else fst (try_dirs rest c w3))
    /\ calls (snd (try_dirs (module_dir :: rest) modules_loaded w))
       = (if c >? 0 then calls w3 else calls (snd (try_dirs rest c w3))).
Proof.
  cbn [try_dirs]. unfold GetModuleLoadList, recovery_path, dir_path_of. run.
  set (dir_path := (MODULE_BASE_DIR +:+ "/") +:+ module_dir).
  set (path := dir_path +:+ "/" +:+ "modules.load.recovery").
  destruct (sys_stat path (kst w)) as [st|]; simpl.
  - destruct (sys_Modprobe [dir_path] "modules.load.recovery" (kst w)) as [m k1]. simpl.
    destruct (sys_LoadListedModules m k1) as [[r m'] k2]. simpl.
    exists "modules.load.recovery", r, (GetModuleCount m'),
      (mkWorld k2 (calls w ++ [C_stat path; C_Modprobe [dir_path] "modules.load.recovery";
                               C_LoadListedModules r (GetModuleCount m')]) (cout w)).
    split; [left; reflexivity|]. split; [reflexivity|]. rewrite <- ?app_assoc. simpl.
    destruct (GetModuleCount m' >? 0); split; reflexivity.
  - destruct (sys_Modprobe [dir_path] "modules.load" (kst w)) as [m k1]. simpl.
    destruct (sys_LoadListedModules m k1) as [[r m'] k2]. simpl.
    exists "modules.load", r, (GetModuleCount m'),
      (mkWorld k2 (calls w ++ [C_stat path; C_Modprobe [dir_path] "modules.load";
                               C_LoadListedModules r (GetModuleCount m')]) (cout w)).
    split; [right; reflexivity|]. split; [reflexivity|]. rewrite <- ?app_assoc. simpl.
    destruct (GetModuleCount m' >? 0); split; reflexivity.
Qed.



(** The calls of a run of attempts. *)
Lemma listed_steps_calls steps :
  Forall listed_step steps ->
  length (listed_counts (flat_map step_calls steps)) = length steps
  /\ parallel_loads (flat_map step_calls steps) = []
  /\ modprobe_paths (flat_map step_calls steps) = map (fun s => [step_path s]) steps.
Proof.
  induction 1 as [|[[p f] ld] steps [_ Hld] _ (IH1 & IH2 & IH3)]; [auto|].
  destruct ld; try discriminate Hld. simpl. rewrite IH1, IH3. auto.
Qed.

Lemma parallel_steps_calls steps :
  Forall parallel_step steps ->
  listed_counts (flat_map step_calls steps) = []
  /\ length (parallel_loads (flat_map step_calls steps)) = length steps
  /\ modprobe_paths (flat_map step_calls steps) = map (fun s => [step_path s]) steps.
Proof.
  induction 1 as [|[[p f] ld] steps [_ Hld] _ (IH1 & IH2 & IH3)]; [auto|].
  destruct ld; try discriminate Hld. simpl. rewrite IH2, IH3. auto.
Qed.

Lemma map_const_length {A B C} (x : C) (l : list A) (l' : list B) :
  length l = length l' -> map (fun _ => x) l = map (fun _ => x) l'.
Proof.
  revert l'. induction l as [|a l IH]; intros [|b l'] Hlen; try discriminate; [reflexivity|].
  simpl. f_equal. apply IH. injection Hlen as Hlen. exact Hlen.
Qed.

(** The loop over the candidates is a run of attempts at the directories
    of the vector, in order, from the first one on. *)
Lemma try_dirs_shape module_dirs :
  forall modules_loaded w,
  exists steps,
    calls (snd (try_dirs module_dirs modules_loaded w))
    = calls w ++ flat_map step_calls steps
    /\ Forall listed_step steps
    /\ map step_path steps = map dir_path_of (take (length steps) module_dirs)
    /\ (module_dirs <> [] -> steps <> []).
Proof.
  induction module_dirs as [|d rest IH]; intros modules_loaded w.
  - exists []. simpl. rewrite app_nil_r. repeat split; auto.
  - destruct (try_dirs_step d rest modules_loaded w)
      as (f & r & c & w3 & Hf & Hc & _ & Hcalls).
    rewrite Hcalls. destruct (c >? 0).
    + exists [(dir_path_of d, f, C_LoadListedModules r c)].
      split; [exact Hc|].
      split; [constructor; [split; [exact Hf|reflexivity]|constructor]|].
      split; [reflexivity|]. discriminate.
    + destruct (IH c w3) as (steps & He & Hl & Hp & _).
      exists ((dir_path_of d, f, C_LoadListedModules r c) :: steps).
      split; [rewrite He, Hc, <- app_assoc; reflexivity|].
      split; [constructor; [split; [exact Hf|reflexivity]|exact Hl]|].
      split; [simpl; unfold step_path at 1; simpl; rewrite Hp; reflexivity|].
      discriminate.
Qed.

(** After the loop, at most one attempt at the base directory itself. *)
Lemma load_from_shape module_dirs modules_loaded w :
  exists lsteps psteps,
    calls (snd (load_from module_dirs modules_loaded w))
    = calls w ++ flat_map step_calls (lsteps ++ psteps)
    /\ Forall listed_step lsteps
    /\ Forall parallel_step psteps
    /\ map step_path lsteps = map dir_path_of (take (length lsteps) module_dirs)
    /\ map step_path psteps = map (fun _ => MODULE_BASE_DIR) psteps
    /\ (module_dirs <> [] -> lsteps <> []).
Proof.
  destruct (try_dirs_shape module_dirs modules_loaded w) as (steps & Hcalls & Hl & Hp & Hne).
  unfold load_from, bind.
  destruct (try_dirs module_dirs modules_loaded w) as [[[retval|] count] w1];
    simpl in Hcalls.
  - exists steps, []. simpl. rewrite app_nil_r. repeat split; auto.
  - unfold GetModuleLoadList. run.
    change (MODULE_BASE_DIR +:+ "/" +:+ "modules.load.recovery")
      with (recovery_path MODULE_BASE_DIR).
    assert (Hgen : forall f n r c w',
               load_file_name f ->
               calls w' = (calls w1 ++ [C_stat (recovery_path MODULE_BASE_DIR)])
                            ++ [C_Modprobe [MODULE_BASE_DIR] f]
                            ++ [C_LoadModulesParallel n r c] ->
               exists lsteps psteps,
                 calls w' = calls w ++ flat_map step_calls (lsteps ++ psteps)
                 /\ Forall listed_step lsteps
                 /\ Forall parallel_step psteps
                 /\ map step_path lsteps
                    = map dir_path_of (take (length lsteps) module_dirs)
                 /\ map step_path psteps = map (fun _ => MODULE_BASE_DIR) psteps
                 /\ (module_dirs <> [] -> lsteps <> [])).
    { intros f n r c w' Hf Hw'.
      exists steps, [(MODULE_BASE_DIR, f, C_LoadModulesParallel n r c)].
      split; [rewrite Hw', Hcalls, flat_map_app, <- !app_assoc; reflexivity|].
      repeat split; auto. constructor; [split; [exact Hf|reflexivity]|constructor]. }
    destruct (sys_stat (recovery_path MODULE_BASE_DIR) (kst w1)) as [st|]; simpl.
    + destruct (sys_Modprobe [MODULE_BASE_DIR] "modules.load.recovery" (kst w1))
        as [m k1]. simpl.
      destruct (sys_LoadModulesParallel (sys_hardware_concurrency k1) m k1)
        as [[r m'] k2]. simpl.
      apply (Hgen "modules.load.recovery" (sys_hardware_concurrency k1) r
               (GetModuleCount m')); [left; reflexivity|].
      destruct (GetModuleCount m' >? 0); simpl; rewrite <- ?app_assoc; reflexivity.
    + destruct (sys_Modprobe [MODULE_BASE_DIR] "modules.load" (kst w1))
        as [m k1]. simpl.
      destruct (sys_LoadModulesParallel (sys_hardware_concurrency k1) m k1)
        as [[r m'] k2]. simpl.
      apply (Hgen "modules.load" (sys_hardware_concurrency k1) r
               (GetModuleCount m')); [right; reflexivity|].
      destruct (GetModuleCount m' >? 0); simpl; rewrite <- ?app_assoc; reflexivity.
Qed.

(** The calls of [LoadKernelModules] with the base directory open, as
    attempts. *)
Lemma LoadKernelModules_shape modules_loaded w entries :
  sys_opendir MODULE_BASE_DIR (kst w) = Some entries ->
  let evs := calls_since w (snd (LoadKernelModules modules_loaded w)) in
  let module_dirs :=
    fst (candidate_dirs (default "" (sys_uname (kst w))) entries w) in
  exists lsteps psteps,
    evs = [C_uname; C_opendir MODULE_BASE_DIR] ++ flat_map step_calls (lsteps ++ psteps)
    /\ Forall listed_step lsteps
    /\ Forall parallel_step psteps
    /\ length (listed_counts evs) = length lsteps
    /\ length (parallel_loads evs) = length psteps
    /\ modprobe_paths evs = map (fun s => [step_path s]) (lsteps ++ psteps)
    /\ map step_path lsteps = map dir_path_of (take (length lsteps) module_dirs)
    /\ map step_path psteps = map (fun _ => MODULE_BASE_DIR) psteps
    /\ (module_dirs <> [] -> lsteps <> []).
Proof.
  intros Hdir evs module_dirs.
  destruct (LoadKernelModules_trace modules_loaded w entries Hdir) as (w2 & Hrun & Hc2).
  fold module_dirs in Hrun.
  destruct (load_from_shape module_dirs modules_loaded w2)
    as (lsteps & psteps & Hcalls & Hl & Hp & Hlp & Hpp & Hne).
  exists lsteps, psteps.
  assert (Hevs : evs = [C_uname; C_opendir MODULE_BASE_DIR]
                       ++ flat_map step_calls (lsteps ++ psteps)).
  { unfold evs, calls_since. rewrite Hrun, Hcalls, Hc2, <- app_assoc.
    apply drop_app_length. }
  destruct (listed_steps_calls lsteps Hl) as (L1 & L2 & L3).
  destruct (parallel_steps_calls psteps Hp) as (P1 & P2 & P3).
  rewrite Hevs. rewrite flat_map_app.
  rewrite !listed_counts_app, !parallel_loads_app, !modprobe_paths_app.
  rewrite P1, L2, L3, P3, map_app. simpl. rewrite app_nil_r.
  repeat split; auto.
Qed.


(** C3: if an entry of type [DT_DIR] is named exactly
    [release ++ page-size suffix], the candidate list of [LoadKernelModules]
    is that one name, whatever the other entries are: the one ordered-list
    load it makes is on a Modprobe object over that directory, and no other
    directory under the base directory is loaded from. At the entry itself
    the vector built so far is dropped and the entries after it are not
    looked at. *)
Theorem release_specific_dir_wins modules_loaded w entries :
  sys_opendir MODULE_BASE_DIR (kst w) = Some entries ->
  (exists e, In e entries /\ d_type e = DT_DIR
             /\ d_name e = default "" (sys_uname (kst w)) +:+ GetPageSizeSuffix) ->
  let release := default "" (sys_uname (kst w)) in
  let rs := release +:+ GetPageSizeSuffix in
  let evs := calls_since w (snd (LoadKernelModules modules_loaded w)) in
  fst (candidate_dirs release entries w) = [rs]
  /\ (exists w2,
        LoadKernelModules modules_loaded w = load_from [rs] modules_loaded w2
        /\ calls w2 = calls w ++ [C_uname; C_opendir MODULE_BASE_DIR])
  /\ length (listed_counts evs) = 1%nat
  /\ modprobe_paths evs
     = [dir_path_of rs] :: map (fun _ => [MODULE_BASE_DIR]) (parallel_loads evs)
  /\ (forall major minor e later module_dirs w',
        d_type e = DT_DIR ->
        d_name e = rs ->
        fst (read_entries rs GetPageSizeSuffix major minor (e :: later) module_dirs w')
        = [d_name e]).
Proof.
  intros Hdir Hex release rs evs.
  assert (Hcand : fst (candidate_dirs release entries w) = [rs]).
  { unfold candidate_dirs.
    destruct (CStr.sscanf_d_dot_d release 0 0) as [[n major] minor].
    unfold bind, ret.
    pose proof (read_entries_exact rs GetPageSizeSuffix major minor entries [] w Hex)
      as Hr.
    fold rs. destruct (read_entries _ _ _ _ _ _ _) as [dirs w1]. simpl in *.
    rewrite Hr. reflexivity. }
  split; [exact Hcand|]. split; [|split; [|split]].
  - destruct (LoadKernelModules_trace modules_loaded w entries Hdir) as (w2 & Hrun & Hc2).
    fold release in Hrun. rewrite Hcand in Hrun. exists w2. auto.
  - destruct (LoadKernelModules_shape modules_loaded w entries Hdir)
      as (lsteps & psteps & _ & _ & _ & Hnl & _ & _ & Hlp & _ & Hne).
    fold evs in Hnl. fold release in Hlp, Hne. rewrite Hcand in Hlp, Hne.
    rewrite Hnl. destruct lsteps as [|s [|s' l]]; [|reflexivity|].
    + exfalso. apply Hne; [discriminate|reflexivity].
    + simpl in Hlp. discriminate Hlp.
  - destruct (LoadKernelModules_shape modules_loaded w entries Hdir)
      as (lsteps & psteps & _ & _ & _ & _ & Hnp & Hm & Hlp & Hpp & Hne).
    fold evs in Hnp, Hm. fold release in Hlp, Hne. rewrite Hcand in Hlp, Hne.
    rewrite Hm. destruct lsteps as [|s [|s' l]].
    + exfalso. apply Hne; [discriminate|reflexivity].
    + simpl in Hlp. injection Hlp as Hlp. simpl. rewrite Hlp. f_equal.
      rewrite <- (map_map step_path (fun p => [p])), Hpp, map_map.
      apply map_const_length. symmetry. exact Hnp.
    + simpl in Hlp. discriminate Hlp.
  - intros major minor e later module_dirs w' Ht Hn.
    rewrite Hn. apply read_entries_release_specific; assumption.
Qed.

(** X6: [LoadKernelModules] answers [false] only with a positive count in
    [modules_loaded]: a run in which no load registered a module answers
    [true], whatever the loads returned. *)
Theorem LoadKernelModules_false_only_with_modules modules_loaded w :
  fst (fst (LoadKernelModules modules_loaded w)) = false ->
  snd (fst (LoadKernelModules modules_loaded w)) > 0.
Proof.
  destruct (sys_opendir MODULE_BASE_DIR (kst w)) as [entries|] eqn:Hdir.
  - destruct (LoadKernelModules_trace modules_loaded w entries Hdir) as (w2 & -> & _).
    destruct (load_from_trace
                (fst (candidate_dirs (default "" (sys_uname (kst w))) entries w))
                modules_loaded w2) as (evs & _ & Hcase).
    destruct Hcase as [(pre & r & c & _ & Hgt & _ & _ & ->)
                      |(pre & path & f & n & r & c & _ & _ & _ & _ & ->)]; simpl.
    + intros _. exact Hgt.
    + destruct (Z.gtb_spec c 0); [lia|discriminate].
  - unfold LoadKernelModules. run.
    destruct (CStr.sscanf_d_dot_d _ 0 0) as [[n a] b].
    destruct (bool_decide _), (negb _); simpl; rewrite Hdir; simpl; discriminate.
Qed.

Lemma load_from_ignores_input module_dirs modules_loaded modules_loaded' w :
  load_from module_dirs modules_loaded w = load_from module_dirs modules_loaded' w.
Proof. destruct module_dirs; reflexivity. Qed.

(** X7: with the base directory open, what [LoadKernelModules] answers and
    does is the same for every value the caller had in [modules_loaded]:
    the variable is always overwritten by the count of a load. *)
Theorem LoadKernelModules_overwrites_count modules_loaded modules_loaded' w entries :
  sys_opendir MODULE_BASE_DIR (kst w) = Some entries ->
  LoadKernelModules modules_loaded w = LoadKernelModules modules_loaded' w.
Proof.
  intros Hdir. rewrite !(LoadKernelModules_opened _ _ _ Hdir). unfold bind.
  destruct (candidate_dirs _ entries _) as [dirs w1].
  apply load_from_ignores_input.
Qed.

(** X8: [main] exits with status 0 and its last line of output is the
    total that [LoadKernelModules] left in [modules_loaded], starting from
    0; when [/lib/modules] cannot be opened the output ends with the
    skipping notice and a total of 0, and the only calls are [uname] and
    the failed [opendir]. *)
Theorem main_reports_total w :
  fst (main w) = 0
  /\ List.last (cout (snd (main w))) ""
     = "Total modules loaded: " +:+ pretty (snd (fst (LoadKernelModules 0 w)))
  /\ (sys_opendir MODULE_BASE_DIR (kst w) = None ->
      cout (snd (main w))
      = cout (after_uname w)
        ++ ["Unable to open /lib/modules, skipping module loading.";
            "Total modules loaded: 0"]
      /\ calls_since w (snd (main w)) = [C_uname; C_opendir MODULE_BASE_DIR]).
Proof.
  split; [|split].
  - unfold main, bind. destruct (LoadKernelModules 0 w) as [[b c] w1]. reflexivity.
  - unfold main, bind. destruct (LoadKernelModules 0 w) as [[b c] w1]. simpl.
    apply last_last.
  - intros Hdir. unfold main, LoadKernelModules, after_uname, calls_since. run.
    destruct (CStr.sscanf_d_dot_d _ 0 0) as [[n a] b].
    destruct (bool_decide _), (negb _); simpl; rewrite Hdir; simpl;
      rewrite <- ?app_assoc, drop_app_length; auto.
Qed.

End MoreOrchestrator.

(** * Further properties of the Modprobe member functions *)

Section MoreLoader.
Context {K : Type} `{HS : Sys K}.

Implicit Types (w : World K) (this : Modprobe).

(** The whole outcome of an [Insmod] whose [open] succeeded. *)
Lemma Insmod_run path_name parameters this w fd k1 r e k2 :
  sys_open path_name insmod_flags (kst w) = (fd, k1) ->
  fd <> -1 ->
  sys_finit_module fd (Insmod_options path_name parameters this) 0 k1 = (r, e, k2) ->
  exists lines,
    Insmod path_name parameters this w
    = (if negb (CStr.to_int r =? 0) then
         if e =? EEXIST then
           (true, register_loaded path_name (MakeCanonical path_name)
                                  (module_count_ this) this)
         else (false, this)
       else (true, register_loaded path_name (MakeCanonical path_name)
                                   (module_count_ this + 1) this),
       mkWorld (sys_close fd k2)
               (calls w ++ [C_open path_name insmod_flags;
                            C_finit_module fd (Insmod_options path_name parameters this) 0;
                            C_close fd])
               (cout w ++ lines)).
Proof.
  intros Ho Hfd Hf. unfold Insmod. run. fold insmod_flags. rewrite Ho.
  destruct (Z.eqb_spec fd (-1)) as [|_]; [contradiction|]. simpl.
  rewrite Hf. simpl.
  destruct (negb (CStr.to_int r =? 0)); [destruct (e =? EEXIST)|]; simpl;
    rewrite <- ?app_assoc; simpl; eexists; reflexivity.
Qed.

(** X9: when the module file cannot be opened, [Insmod] answers [false]
    and stops there: the object is unchanged, the failed [open] is the only
    call (no insertion is attempted and nothing is closed), and nothing is
    printed. *)
Theorem Insmod_open_failure path_name parameters this w k1 :
  sys_open path_name insmod_flags (kst w) = (-1, k1) ->
  fst (Insmod path_name parameters this w) = (false, this)
  /\ calls_since w (snd (Insmod path_name parameters this w))
     = [C_open path_name insmod_flags]
  /\ cout (snd (Insmod path_name parameters this w)) = cout w.
Proof.
  intros Ho. rewrite (Insmod_open_failed _ _ _ _ _ Ho). unfold calls_since. simpl.
  rewrite drop_app_length. auto.
Qed.

(** X10: an [Insmod] that opened the file closes its descriptor exactly
    once, as its last call, whatever the kernel answered to the insertion;
    one that did not open it closes nothing. It opens the given path once
    in either case. *)
Theorem Insmod_releases_descriptor path_name parameters this w :
  let evs := calls_since w (snd (Insmod path_name parameters this w)) in
  let fd := fst (sys_open path_name insmod_flags (kst w)) in
  opened_paths evs = [path_name]
  /\ closed_fds evs = (if fd =? -1 then [] else [fd])
  /\ (fd <> -1 -> List.last evs C_uname = C_close fd).
Proof.
  intros evs fd. unfold evs, fd, calls_since.
  destruct (sys_open path_name insmod_flags (kst w)) as [fd' k1] eqn:Ho. simpl.
  destruct (Z.eqb_spec fd' (-1)) as [->|Hfd].
  - rewrite (Insmod_open_failed _ _ _ _ _ Ho). simpl. rewrite drop_app_length.
    split; [reflexivity|]. split; [reflexivity|]. intros Hn. contradiction.
  - destruct (sys_finit_module fd' (Insmod_options path_name parameters this) 0 k1)
      as [[r e] k2] eqn:Hf.
    destruct (Insmod_run _ _ _ _ _ _ _ _ _ Ho Hfd Hf) as (lines & ->). simpl.
    rewrite drop_app_length. auto.
Qed.

(** X11: [Insmod] answers [true] only with the path and the canonical name
    in the two sets afterwards, and answers [false] only with the object
    exactly as it was. With the file open, it answers [true] exactly when
    [ret], the answer of [finit_module] as an [int], is 0 or [errno] is
    [EEXIST]. *)
Theorem Insmod_answer path_name parameters this w :
  let out := fst (Insmod path_name parameters this w) in
  (fst out = true ->
     path_name ∈ module_loaded_paths_ (snd out)
     /\ MakeCanonical path_name ∈ module_loaded_ (snd out))
  /\ (fst out = false -> snd out = this)
  /\ (forall fd k1 r e k2,
        sys_open path_name insmod_flags (kst w) = (fd, k1) ->
        fd <> -1 ->
        sys_finit_module fd (Insmod_options path_name parameters this) 0 k1 = (r, e, k2) ->
        (fst out = true <-> CStr.to_int r = 0 \/ e = EEXIST)).
Proof.
  intros out. unfold out.
  destruct (sys_open path_name insmod_flags (kst w)) as [fd k1] eqn:Ho.
  destruct (Z.eq_dec fd (-1)) as [->|Hfd].
  - rewrite (Insmod_open_failed _ _ _ _ _ Ho). simpl.
    split; [discriminate|]. split; [reflexivity|].
    intros fd' k1' r e k2 [= <- <-] Hn. contradiction.
  - destruct (sys_finit_module fd (Insmod_options path_name parameters this) 0 k1)
      as [[r e] k2] eqn:Hf.
    rewrite (Insmod_result _ _ _ _ _ _ _ _ _ Ho Hfd Hf).
    destruct (Z.eqb_spec (CStr.to_int r) 0) as [Hr|Hr]; simpl.
    + split; [intros _; split; set_solver|]. split; [discriminate|].
      intros fd' k1' r' e' k2' [= <- <-] _ Hf'.
      assert (r' = r) as -> by congruence. split; auto.
    + destruct (Z.eqb_spec e EEXIST) as [->|He]; simpl.
      * split; [intros _; split; set_solver|]. split; [discriminate|].
        intros fd' k1' r' e' k2' [= <- <-] _ Hf'.
        assert (e' = EEXIST) as -> by congruence. split; auto.
      * split; [discriminate|]. split; [reflexivity|].
        intros fd' k1' r' e' k2' [= <- <-] _ Hf'.
        assert (r' = r /\ e' = e) as [-> ->] by (split; congruence).
        split; [discriminate|]. intros [|]; contradiction.
Qed.

(** What one member call leaves alone and what it can only grow. *)
Lemma Insmod_frame path_name parameters this w :
  let after := snd (fst (Insmod path_name parameters this w)) in
  module_options_ after = module_options_ this
  /\ module_blocklist_ after = module_blocklist_ this
  /\ blocklist_enabled after = blocklist_enabled this
  /\ module_loaded_paths_ this ⊆ module_loaded_paths_ after
  /\ module_loaded_ this ⊆ module_loaded_ after
  /\ module_count_ this <= module_count_ after <= module_count_ this + 1.
Proof.
  simpl.
  destruct (sys_open path_name insmod_flags (kst w)) as [fd k1] eqn:Ho.
  destruct (Z.eq_dec fd (-1)) as [->|Hfd].
  - rewrite (Insmod_open_failed _ _ _ _ _ Ho). simpl. repeat split; try set_solver; lia.
  - destruct (sys_finit_module fd (Insmod_options path_name parameters this) 0 k1)
      as [[r e] k2] eqn:Hf.
    rewrite (Insmod_result _ _ _ _ _ _ _ _ _ Ho Hfd Hf).
    destruct (negb (CStr.to_int r =? 0)); [destruct (e =? EEXIST)|]; simpl;
      repeat split; try set_solver; lia.
Qed.

Lemma Rmmod_run module_name this w :
  exists lines,
    Rmmod module_name this w
    = (let '(r, _, k) :=
         sys_delete_module (MakeCanonical module_name) [O_NONBLOCK] (kst w) in
       (if CStr.to_int r =? 0 then (true, erase_loaded (MakeCanonical module_name) this)
        else (false, this),
        mkWorld k (calls w ++ [C_delete_module (MakeCanonical module_name) [O_NONBLOCK]])
                (cout w ++ lines))).
Proof.
  unfold Rmmod. run.
  destruct (sys_delete_module _ _ _) as [[r e] k]. simpl.
  destruct (CStr.to_int r =? 0); simpl; eexists; [rewrite app_nil_r|]; reflexivity.
Qed.

(** X12: [Rmmod] does not look at the registry before asking: it always
    makes exactly one [delete_module] call, for the canonical name and
    without blocking. If it answers [true] the canonical name is not in
    [module_loaded_] afterwards; for a name that was not registered a
    successful removal leaves the object exactly as it was. *)
Theorem Rmmod_asks_kernel module_name this w :
  let out := Rmmod module_name this w in
  calls_since w (snd out) = [C_delete_module (MakeCanonical module_name) [O_NONBLOCK]]
  /\ (fst (fst out) = true -> MakeCanonical module_name ∉ module_loaded_ (snd (fst out)))
  /\ (MakeCanonical module_name ∉ module_loaded_ this -> snd (fst out) = this).
Proof.
  intros out. unfold out, calls_since.
  destruct (Rmmod_run module_name this w) as (lines & ->).
  destruct (sys_delete_module _ _ _) as [[r e] k]. simpl.
  rewrite drop_app_length. split; [reflexivity|].
  destruct (CStr.to_int r =? 0); simpl.
  - split.
    + intros _. apply not_elem_of_difference. right. apply elem_of_singleton.
      reflexivity.
    + intros Hnot. destruct this as [o b en l p c]. unfold erase_loaded. simpl in *.
      f_equal. apply difference_disjoint_L. apply disjoint_singleton_r. exact Hnot.
  - split; [discriminate|reflexivity].
Qed.

(** X13: removal does not undo insertion. After a fresh insertion of a
    file and a successful removal of the same module, the canonical name is
    gone from [module_loaded_], but the path is still in
    [module_loaded_paths_] and the count still includes the insertion. *)
Theorem Insmod_then_Rmmod path_name parameters module_name this w fd k1 e k2 e' k3 :
  MakeCanonical module_name = MakeCanonical path_name ->
  sys_open path_name insmod_flags (kst w) = (fd, k1) ->
  fd <> -1 ->
  sys_finit_module fd (Insmod_options path_name parameters this) 0 k1 = (0, e, k2) ->
  sys_delete_module (MakeCanonical path_name) [O_NONBLOCK] (sys_close fd k2) = (0, e', k3) ->
  let inserted := Insmod path_name parameters this w in
  let removed := Rmmod module_name (snd (fst inserted)) (snd inserted) in
  fst (fst inserted) = true
  /\ fst (fst removed) = true
  /\ (MakeCanonical path_name ∉ module_loaded_ (snd (fst removed)))
  /\ (path_name ∈ module_loaded_paths_ (snd (fst removed)))
  /\ module_count_ (snd (fst removed)) = module_count_ this + 1.
Proof.
  intros Hc Ho Hfd Hf Hd inserted removed. unfold removed, inserted.
  destruct (Insmod_run _ _ _ _ _ _ _ _ _ Ho Hfd Hf) as (lines & ->). simpl.
  destruct (Rmmod_run module_name
              (register_loaded path_name (MakeCanonical path_name)
                               (module_count_ this + 1) this)
              (mkWorld (sys_close fd k2)
                 (calls w ++ [C_open path_name insmod_flags;
                              C_finit_module fd (Insmod_options path_name parameters this) 0;
                              C_close fd])
                 (cout w ++ lines))) as (lines' & ->).
  change (CStr.to_int 0) with 0. simpl. rewrite Hc, Hd.
  change (CStr.to_int 0) with 0. simpl.
  split; [reflexivity|]. split; [reflexivity|]. split; [|split; [|reflexivity]].
  - apply not_elem_of_difference. right. apply elem_of_singleton. reflexivity.
  - apply elem_of_union_l. apply elem_of_singleton. reflexivity.
Qed.

(** X14: [ModuleExists] answers [true] exactly when the name is not
    rejected by the enforced blocklist (the name is looked up as given, not
    in canonical form), its dependency list is not empty, and [stat] on the
    first dependency finds a regular file. The first dependency is the only
    path it ever looks at. *)
Theorem ModuleExists_true_iff module_name this w :
  let out := ModuleExists module_name this w in
  let deps := sys_GetDependencies this module_name (kst w) in
  (fst (fst out) = true <->
     ~ (blocklist_enabled this = true /\ module_name ∈ module_blocklist_ this)
     /\ exists front rest st_mode,
          deps = front :: rest
          /\ sys_stat front (kst w) = Some st_mode
          /\ S_ISREG st_mode = true)
  /\ (forall p, In p (stat_paths (calls_since w (snd out))) -> head deps = Some p).
Proof.
  intros out deps. unfold out, calls_since.
  destruct (blocklist_enabled this && bool_decide (module_name ∈ module_blocklist_ this))
    eqn:Hb.
  - apply andb_true_iff in Hb as [He Hm]. apply bool_decide_eq_true in Hm.
    rewrite (ModuleExists_blocked _ _ _ He Hm). simpl. rewrite drop_all. split.
    + split; [discriminate|]. intros [Hn _]. exfalso. apply Hn. auto.
    + intros p [].
  - assert (Hnb : ~ (blocklist_enabled this = true
                     /\ module_name ∈ module_blocklist_ this)).
    { intros [He Hm]. rewrite He in Hb. simpl in Hb.
      apply bool_decide_eq_false in Hb. contradiction. }
    unfold ModuleExists. rewrite Hb. run. fold deps.
    destruct deps as [|front rest]; simpl.
    + rewrite drop_app_length. split.
      * split; [discriminate|]. intros (_ & f & r & m & Hd & _). discriminate.
      * intros p [].
    + destruct (sys_stat front (kst w)) as [m|] eqn:Hst; simpl;
        [destruct (S_ISREG m) eqn:Hreg; simpl|];
        rewrite <- ?app_assoc, drop_app_length; simpl.
      * split; [|intros p [<-|[]]; reflexivity].
        split; [intros _; split; [exact Hnb|]; exists front, rest, m; auto|reflexivity].
      * split; [|intros p [<-|[]]; reflexivity].
        split; [discriminate|].
        intros (_ & f & r & m' & [= <- <-] & Hs & Hr). congruence.
      * split; [|intros p [<-|[]]; reflexivity].
        split; [discriminate|].
        intros (_ & f & r & m' & [= <- <-] & Hs & Hr). congruence.
Qed.

End MoreLoader.

(** * Invariants of the registry over sequences of member calls *)

Section MoreSequences.
Context {K : Type} `{HS : Sys K}.

Implicit Types (w : World K) (this : Modprobe).

Lemma ModuleExists_same module_name this w :
  snd (fst (ModuleExists module_name this w)) = this.
Proof.
  unfold ModuleExists.
  destruct (blocklist_enabled this && bool_decide _); [reflexivity|].
  run. destruct (sys_GetDependencies this module_name (kst w)) as [|front rest];
    [reflexivity|]. simpl.
  destruct (sys_stat front (kst w)) as [m|]; simpl; [destruct (S_ISREG m)|]; reflexivity.
Qed.

Lemma Rmmod_frame_all module_name this w :
  let after := snd (fst (Rmmod module_name this w)) in
  module_options_ after = module_options_ this
  /\ module_blocklist_ after = module_blocklist_ this
  /\ blocklist_enabled after = blocklist_enabled this
  /\ module_loaded_paths_ after = module_loaded_paths_ this
  /\ module_loaded_ after ⊆ module_loaded_ this
  /\ module_count_ after = module_count_ this.
Proof.
  simpl. destruct (Rmmod_run module_name this w) as (lines & ->).
  destruct (sys_delete_module _ _ _) as [[r e] k]. simpl.
  destruct (CStr.to_int r =? 0); simpl; repeat split; try reflexivity.
  apply subseteq_difference_l. reflexivity.
Qed.

Lemma run_op_frame o this w :
  let after := snd (fst (run_op o this w)) in
  module_options_ after = module_options_ this
  /\ module_blocklist_ after = module_blocklist_ this
  /\ blocklist_enabled after = blocklist_enabled this
  /\ module_loaded_paths_ this ⊆ module_loaded_paths_ after
  /\ module_count_ this <= module_count_ after
     <= module_count_ this + (if is_insmod o then 1 else 0).
Proof.
  destruct o as [path_name parameters|module_name|module_name]; simpl.
  - destruct (Insmod_frame path_name parameters this w) as (H1 & H2 & H3 & H4 & _ & H6).
    auto.
  - destruct (Rmmod_frame_all module_name this w) as (H1 & H2 & H3 & H4 & _ & H6).
    simpl in *. rewrite H1, H2, H3, H4, H6. repeat split; try reflexivity; lia.
  - rewrite ModuleExists_same. repeat split; try reflexivity; lia.
Qed.

(** X15: over any sequence of [Insmod], [Rmmod] and [ModuleExists] calls on
    one object, the options, the blocklist and its switch stay as they
    were, no path ever leaves [module_loaded_paths_], and the count never
    goes down and grows by at most one per [Insmod]. *)
Theorem run_ops_invariants ops :
  forall this w,
    let after := fst (run_ops ops this w) in
    module_options_ after = module_options_ this
    /\ module_blocklist_ after = module_blocklist_ this
    /\ blocklist_enabled after = blocklist_enabled this
    /\ module_loaded_paths_ this ⊆ module_loaded_paths_ after
    /\ module_count_ this <= module_count_ after
       <= module_count_ this + Z.of_nat (length (List.filter is_insmod ops)).
Proof.
  induction ops as [|o ops IH]; intros this w; simpl.
  - repeat split; try reflexivity; lia.
  - unfold bind. pose proof (run_op_frame o this w) as Hop. simpl in Hop.
    destruct (run_op o this w) as [[b this1] w1]. simpl in Hop.
    destruct Hop as (H1 & H2 & H3 & H4 & H5).
    specialize (IH this1 w1). simpl in IH. destruct IH as (I1 & I2 & I3 & I4 & I5).
    rewrite I1, I2, I3, H1, H2, H3.
    repeat split; try reflexivity; [etransitivity; eassumption|lia|].
    destruct (is_insmod o); simpl length; lia.
Qed.

Lemma run_op_backed o this w :
  canonical_backed this -> canonical_backed (snd (fst (run_op o this w))).
Proof.
  intros Hb. destruct o as [path_name parameters|module_name|module_name]; simpl.
  - destruct (sys_open path_name insmod_flags (kst w)) as [fd k1] eqn:Ho.
    destruct (Z.eq_dec fd (-1)) as [->|Hfd].
    + rewrite (Insmod_open_failed _ _ _ _ _ Ho). exact Hb.
    + destruct (sys_finit_module fd (Insmod_options path_name parameters this) 0 k1)
        as [[r e] k2] eqn:Hf.
      rewrite (Insmod_result _ _ _ _ _ _ _ _ _ Ho Hfd Hf).
      assert (Hreg : forall n, canonical_backed
                (register_loaded path_name (MakeCanonical path_name) n this)).
      { intros n c Hc. simpl in Hc. apply elem_of_union in Hc as [Hc|Hc].
        - apply elem_of_singleton in Hc as ->. exists path_name.
          split; [|reflexivity]. simpl. apply elem_of_union_l, elem_of_singleton.
          reflexivity.
        - destruct (Hb c Hc) as (p & Hp & Hcp). exists p. split; [|exact Hcp].
          simpl. apply elem_of_union_r. exact Hp. }
      destruct (negb (CStr.to_int r =? 0)); [destruct (e =? EEXIST)|]; simpl; auto.
  - destruct (Rmmod_frame_all module_name this w) as (_ & _ & _ & H4 & H5 & _).
    simpl in H4, H5. intros c Hc. rewrite H4. apply Hb. apply H5. exact Hc.
  - rewrite ModuleExists_same. exact Hb.
Qed.

(** X16: if every canonical name in [module_loaded_] is the canonical name
    of some path in [module_loaded_paths_], then this is still so after any
    sequence of [Insmod], [Rmmod] and [ModuleExists] calls. *)
Theorem run_ops_canonical_backed ops :
  forall this w,
    canonical_backed this -> canonical_backed (fst (run_ops ops this w)).
Proof.
  induction ops as [|o ops IH]; intros this w Hb; simpl; [exact Hb|].
  unfold bind. pose proof (run_op_backed o this w Hb) as Hop.
  destruct (run_op o this w) as [[b this1] w1]. simpl in Hop.
  apply IH. exact Hop.
Qed.

End MoreSequences.

(** * The descriptor handle *)

Section MoreUniqueFd.
Context {K : Type} `{HS : Sys K}.

Implicit Types (w : World K) (st : gmap nat Z).

Lemma fd_of_Some a st fd : UniqueFd.fd_of a st = fd -> fd <> -1 -> st !! a = Some fd.
Proof.
  unfold UniqueFd.fd_of. intros Heq Hfd. destruct (st !! a) as [x|]; simpl in Heq;
    congruence.
Qed.

Lemma dtor_run a st w :
  UniqueFd.dtor a st w
  = (delete a st,
     if UniqueFd.fd_of a st =? -1 then w
     else record_call (C_close (UniqueFd.fd_of a st)) w
                      (sys_close (UniqueFd.fd_of a st) (kst w))).
Proof. unfold UniqueFd.dtor. run. destruct (UniqueFd.fd_of a st =? -1); reflexivity. Qed.

Lemma move_assign_distinct a b st w :
  a <> b ->
  UniqueFd.move_assign a b st w
  = (<[b := -1]> (<[a := UniqueFd.fd_of b st]> st),
     if UniqueFd.fd_of a st =? -1 then w
     else record_call (C_close (UniqueFd.fd_of a st)) w
                      (sys_close (UniqueFd.fd_of a st) (kst w))).
Proof.
  intros Hab. unfold UniqueFd.move_assign.
  destruct (Nat.eqb_spec a b) as [|_]; [contradiction|]. run.
  destruct (UniqueFd.fd_of a st =? -1); reflexivity.
Qed.

(** X17: a move assignment to the object itself does nothing. Between two
    different live objects it closes the descriptor the target held (if it
    held one), hands the source's descriptor to the target and leaves the
    source empty; no other object is touched. *)
Theorem move_assign_transfers a b st w fa fb :
  st !! a = Some fa ->
  st !! b = Some fb ->
  (a = b -> UniqueFd.move_assign a b st w = (st, w))
  /\ (a <> b ->
      let out := UniqueFd.move_assign a b st w in
      fst out !! a = Some fb
      /\ fst out !! b = Some (-1)
      /\ (forall c, c <> a -> c <> b -> fst out !! c = st !! c)
      /\ calls_since w (snd out) = (if fa =? -1 then [] else [C_close fa])).
Proof.
  intros Ha Hb. split.
  - intros ->. unfold UniqueFd.move_assign. rewrite Nat.eqb_refl. reflexivity.
  - intros Hab. simpl. rewrite (move_assign_distinct a b st w Hab).
    unfold UniqueFd.fd_of. rewrite Ha, Hb. simpl.
    split; [rewrite lookup_insert_ne, lookup_insert_eq by auto; reflexivity|].
    split; [apply lookup_insert_eq|].
    split; [intros c Hca Hcb; rewrite !lookup_insert_ne by auto; reflexivity|].
    unfold calls_since. destruct (fa =? -1); simpl.
    + apply drop_all.
    + apply drop_app_length.
Qed.

(** X18: a move assignment loses no descriptor: each descriptor some object
    held before is held by some object afterwards or has been closed; and
    if no descriptor was held twice, a descriptor that was closed is held
    by no object afterwards. *)
Theorem move_assign_no_leak a b st w fd :
  fd <> -1 ->
  let out := UniqueFd.move_assign a b st w in
  ((exists c, st !! c = Some fd) ->
     (exists c, fst out !! c = Some fd) \/ In fd (closed_fds (calls_since w (snd out))))
  /\ (UniqueFd.exclusive st ->
      In fd (closed_fds (calls_since w (snd out))) ->
      forall c, fst out !! c <> Some fd).
Proof.
  intros Hfd. simpl. destruct (Nat.eq_dec a b) as [->|Hab].
  - unfold UniqueFd.move_assign. rewrite Nat.eqb_refl. simpl. unfold calls_since.
    rewrite drop_all. split; [auto|]. intros _ [].
  - rewrite (move_assign_distinct a b st w Hab). simpl. unfold calls_since.
    assert (Hclosed : closed_fds
              (drop (length (calls w))
                 (calls (if UniqueFd.fd_of a st =? -1 then w
                         else record_call (C_close (UniqueFd.fd_of a st)) w
                                (sys_close (UniqueFd.fd_of a st) (kst w)))))
            = if UniqueFd.fd_of a st =? -1 then [] else [UniqueFd.fd_of a st]).
    { destruct (UniqueFd.fd_of a st =? -1); simpl;
        [rewrite drop_all|rewrite drop_app_length]; reflexivity. }
    rewrite Hclosed. clear Hclosed. split.
    + intros (c & Hc). destruct (Nat.eq_dec c a) as [->|Hca].
      * right. unfold UniqueFd.fd_of. rewrite Hc. simpl.
        destruct (Z.eqb_spec fd (-1)); [contradiction|]. left. reflexivity.
      * destruct (Nat.eq_dec c b) as [->|Hcb].
        -- left. exists a. rewrite lookup_insert_ne, lookup_insert_eq by auto.
           unfold UniqueFd.fd_of. rewrite Hc. reflexivity.
        -- left. exists c. rewrite !lookup_insert_ne by auto. exact Hc.
    + intros Hex Hin c Hc.
      destruct (Z.eqb_spec (UniqueFd.fd_of a st) (-1)) as [|Hfa]; [destruct Hin|].
      destruct Hin as [Heq|[]].
      assert (Ha : st !! a = Some fd).
      { unfold UniqueFd.fd_of in Heq, Hfa. destruct (st !! a) as [x|]; simpl in *;
          [congruence|contradiction]. }
      destruct (Nat.eq_dec c b) as [->|Hcb].
      * rewrite lookup_insert_eq in Hc. congruence.
      * rewrite lookup_insert_ne in Hc by auto.
        destruct (Nat.eq_dec c a) as [->|Hca].
        -- rewrite lookup_insert_eq in Hc. injection Hc as Hc.
           unfold UniqueFd.fd_of in Hc. destruct (st !! b) as [x|] eqn:Hb; simpl in Hc;
             [|congruence].
           subst x. apply Hab. apply (Hex a b fd); assumption.
        -- rewrite lookup_insert_ne in Hc by auto.
           apply Hca. apply (Hex c a fd); assumption.
Qed.

(** X19: a handle built and destroyed in one scope, as in [Insmod], opens
    the path once, closes the descriptor once if the open succeeded and not
    at all if it failed, and leaves the store of objects as it was. *)
Theorem scoped_handle a path st w :
  st !! a = None ->
  let out := (let* st1 := UniqueFd.ctor a path st in UniqueFd.dtor a st1) w in
  let fd := fst (sys_open path insmod_flags (kst w)) in
  fst out = st
  /\ calls_since w (snd out)
     = C_open path insmod_flags :: (if fd =? -1 then [] else [C_close fd]).
Proof.
  intros Ha. simpl. unfold UniqueFd.ctor, UniqueFd.dtor, UniqueFd.fd_of, calls_since.
  run. destruct (sys_open path insmod_flags (kst w)) as [fd k1]. simpl.
  rewrite lookup_insert_eq. simpl. rewrite delete_insert_eq.
  destruct (fd =? -1); simpl; rewrite <- ?app_assoc, drop_app_length;
    rewrite (delete_id _ _ Ha); auto.
Qed.

(** X20: after an object has been move-constructed from a handle, the
    descriptor is closed exactly once when both objects are destroyed, in
    whichever order, and the store is back to what it was without the
    handle. *)
Theorem moved_handle_closed_once a b st w fd :
  st !! a = Some fd ->
  st !! b = None ->
  fd <> -1 ->
  let st1 := UniqueFd.move_ctor b a st in
  let old_first := (let* st2 := UniqueFd.dtor a st1 in UniqueFd.dtor b st2) w in
  let new_first := (let* st2 := UniqueFd.dtor b st1 in UniqueFd.dtor a st2) w in
  UniqueFd.valid b st1 = true
  /\ UniqueFd.valid a st1 = false
  /\ calls_since w (snd old_first) = [C_close fd]
  /\ calls_since w (snd new_first) = [C_close fd]
  /\ fst old_first = delete a st
  /\ fst new_first = delete a st.
Proof.
  intros Ha Hb Hfd. simpl.
  assert (Hab : a <> b) by congruence.
  set (st1 := UniqueFd.move_ctor b a st).
  assert (H1a : st1 !! a = Some (-1)) by apply lookup_insert_eq.
  assert (H1b : st1 !! b = Some fd).
  { unfold st1, UniqueFd.move_ctor, UniqueFd.fd_of. rewrite Ha. simpl.
    rewrite lookup_insert_ne, lookup_insert_eq by auto. reflexivity. }
  assert (Hfa : UniqueFd.fd_of a st1 = -1) by (unfold UniqueFd.fd_of; rewrite H1a; reflexivity).
  assert (Hfb : UniqueFd.fd_of b st1 = fd) by (unfold UniqueFd.fd_of; rewrite H1b; reflexivity).
  assert (Hfb' : UniqueFd.fd_of b (delete a st1) = fd).
  { unfold UniqueFd.fd_of. rewrite lookup_delete_ne, H1b by auto. reflexivity. }
  assert (Hfa' : UniqueFd.fd_of a (delete b st1) = -1).
  { unfold UniqueFd.fd_of. rewrite lookup_delete_ne, H1a by auto. reflexivity. }
  assert (Hstore : forall i, delete b (delete a st1) !! i = delete a st !! i).
  { intros i. unfold st1, UniqueFd.move_ctor.
    destruct (Nat.eq_dec i b) as [->|Hib].
    - rewrite lookup_delete_eq, lookup_delete_ne by auto. symmetry. exact Hb.
    - rewrite lookup_delete_ne by auto.
      destruct (Nat.eq_dec i a) as [->|Hia].
      + rewrite !lookup_delete_eq. reflexivity.
      + rewrite !lookup_delete_ne, !lookup_insert_ne by auto. reflexivity. }
  unfold UniqueFd.valid. rewrite Hfa, Hfb.
  destruct (Z.eqb_spec fd (-1)) as [|_]; [contradiction|].
  split; [reflexivity|]. split; [reflexivity|].
  unfold bind. rewrite !dtor_run. simpl. rewrite Hfa, Hfb, Hfa', Hfb'. simpl.
  destruct (Z.eqb_spec fd (-1)) as [|_]; [contradiction|]. simpl.
  unfold calls_since. simpl. rewrite drop_app_length.
  repeat split.
  - apply map_eq. exact Hstore.
  - rewrite delete_delete. apply map_eq. exact Hstore.
Qed.

(** X21: if no descriptor is held by two objects, this is still so after a
    move construction, a move assignment or a destruction. *)
Theorem exclusive_preserved a b st w :
  UniqueFd.exclusive st ->
  UniqueFd.exclusive (UniqueFd.move_ctor b a st)
  /\ UniqueFd.exclusive (fst (UniqueFd.move_assign a b st w))
  /\ UniqueFd.exclusive (fst (UniqueFd.dtor a st w)).
Proof.
  intros Hex.
  assert (Hmove : forall x y,
             UniqueFd.exclusive (<[y := -1]> (<[x := UniqueFd.fd_of y st]> st))).
  { intros x y c d fd Hc Hd Hfd.
    destruct (Nat.eq_dec c y) as [->|Hcy];
      [rewrite lookup_insert_eq in Hc; congruence|].
    destruct (Nat.eq_dec d y) as [->|Hdy];
      [rewrite lookup_insert_eq in Hd; congruence|].
    rewrite lookup_insert_ne in Hc, Hd by auto.
    destruct (Nat.eq_dec c x) as [->|Hcx]; destruct (Nat.eq_dec d x) as [->|Hdx];
      try reflexivity.
    - exfalso. rewrite lookup_insert_eq in Hc. rewrite lookup_insert_ne in Hd by auto.
      injection Hc as Hc. apply Hdy. apply (Hex d y fd); auto using fd_of_Some.
    - exfalso. rewrite lookup_insert_eq in Hd. rewrite lookup_insert_ne in Hc by auto.
      injection Hd as Hd. apply Hcy. apply (Hex c y fd); auto using fd_of_Some.
    - rewrite lookup_insert_ne in Hc, Hd by auto. apply (Hex c d fd); assumption. }
  split; [apply Hmove|]. split.
  - destruct (Nat.eq_dec a b) as [->|Hab].
    + unfold UniqueFd.move_assign. rewrite Nat.eqb_refl. exact Hex.
    + rewrite (move_assign_distinct a b st w Hab). simpl. apply Hmove.
  - rewrite dtor_run. simpl.
    intros c d fd Hc Hd Hfd.
    apply lookup_delete_Some in Hc as [_ Hc]. apply lookup_delete_Some in Hd as [_ Hd].
    apply (Hex c d fd); assumption.
Qed.

End MoreUniqueFd.

(** * Concrete runs of the further properties *)

Section MoreRuns.
Import Fixture Scenarios.

(** The three directories, delivered in two different orders. *)
Lemma candidate_dirs_order_independent_witness :
  fst (candidate_dirs (HS := sys three_dirs) "6.1.0" (entries_of three_names) boot)
  = fst (candidate_dirs (HS := sys three_dirs) "6.1.0"
           (entries_of three_names_shuffled) boot)
  /\ Sorted not_after
       (fst (candidate_dirs (HS := sys three_dirs) "6.1.0" (entries_of three_names) boot)).
Proof.
  apply (candidate_dirs_order_independent (HS := sys three_dirs) "6.1.0"
           (entries_of three_names) (entries_of three_names_shuffled) boot boot).
  apply Permutation_sym. simpl.
  apply (perm_trans (perm_swap _ _ _)). apply perm_skip. apply perm_swap.
Defined.

(** The candidate "6.1" of the three directories. *)
Lemma candidate_dirs_sound_witness :
  (exists e, In e (entries_of three_names) /\ d_type e = DT_DIR /\ d_name e = "6.1")
  /\ ("6.1" = "6.1.0" +:+ GetPageSizeSuffix (HS := sys three_dirs)
      \/ same_version 6 1 "6.1" = true).
Proof.
  apply (candidate_dirs_sound (HS := sys three_dirs) "6.1.0" (entries_of three_names)
           boot 2 6 1 "6.1").
  - vm_compute. reflexivity.
  - vm_compute. auto.
Defined.

(** The directory "6.1.0-gki" among the three. *)
Lemma candidate_dirs_complete_witness :
  In "6.1.0-gki"
     (fst (candidate_dirs (HS := sys three_dirs) "6.1.0" (entries_of three_names) boot)).
Proof.
  apply (candidate_dirs_complete (HS := sys three_dirs) "6.1.0" (entries_of three_names)
           boot 2 6 1 (Dirent DT_DIR "6.1.0-gki")).
  - vm_compute. reflexivity.
  - intros e Hin _. simpl in Hin.
    destruct Hin as [<-|[<-|[<-|[]]]]; vm_compute; discriminate.
  - simpl. auto.
  - reflexivity.
  - vm_compute. reflexivity.
Defined.

(** Release "6.1.0" on 16K pages, with the directory "6.1.0". *)
Lemma unsuffixed_release_dir_kept_witness :
  GetPageSizeSuffix (HS := sys large_pages) <> ""
  /\ "6.1.0" +:+ GetPageSizeSuffix (HS := sys large_pages) <> "6.1.0"
  /\ In "6.1.0"
        (fst (candidate_dirs (HS := sys large_pages) "6.1.0" (entries_of large_names) boot)).
Proof.
  apply (unsuffixed_release_dir_kept (HS := sys large_pages) "6.1.0"
           (entries_of large_names) boot 6 1 (Dirent DT_DIR "6.1.0")).
  - vm_compute. reflexivity.
  - vm_compute. reflexivity.
  - intros e Hin _. simpl in Hin.
    destruct Hin as [<-|[<-|[]]]; vm_compute; discriminate.
  - simpl. auto.
  - reflexivity.
  - reflexivity.
Defined.

(** C3 as stated fails for an entry that is not a directory: with a
    regular file named "6.1.0" beside the directory "6.1-b", release "6.1.0"
    and the empty suffix, an entry carries the exact name, yet the candidate
    list is "6.1-b" and that is the directory loaded from. *)
Lemma release_specific_needs_directory :
  (exists e, In e stray_entries
             /\ d_name e = "6.1.0" +:+ GetPageSizeSuffix (HS := sys stray_file))
  /\ fst (candidate_dirs (HS := sys stray_file) "6.1.0" stray_entries boot) <> ["6.1.0"]
  /\ fst (candidate_dirs (HS := sys stray_file) "6.1.0" stray_entries boot) = ["6.1-b"]
  /\ modprobe_paths
       (calls_since boot (snd (LoadKernelModules (HS := sys stray_file) 0 boot)))
     = [["/lib/modules/6.1-b"]; ["/lib/modules"]].
Proof.
  split; [exists (Dirent DT_REG "6.1.0"); split; [simpl; auto|reflexivity]|].
  split; [vm_compute; discriminate|]. split; vm_compute; reflexivity.
Qed.

(** The exact name between two version-matched ones. *)
Lemma release_specific_dir_wins_witness :
  fst (candidate_dirs (HS := sys exact_dir) "6.1.0" (entries_of exact_names) boot)
  = ["6.1.0"]
  /\ length (listed_counts
               (calls_since boot (snd (LoadKernelModules (HS := sys exact_dir) 0 boot))))
     = 1%nat
  /\ modprobe_paths
       (calls_since boot (snd (LoadKernelModules (HS := sys exact_dir) 0 boot)))
     = [["/lib/modules/6.1.0"]; ["/lib/modules"]].
Proof.
  destruct (release_specific_dir_wins (HS := sys exact_dir) 0 boot (entries_of exact_names))
    as (Hcand & _ & Hone & Hpaths & _).
  - reflexivity.
  - exists (Dirent DT_DIR "6.1.0"). split; [simpl; auto|]. split; reflexivity.
  - split; [exact Hcand|]. split; [exact Hone|].
    rewrite Hpaths. vm_compute. reflexivity.
Defined.

(** An answer of 2^32 from [finit_module] is 0 in [int ret]: the module
    counts as inserted. *)
Example Insmod_narrowed_answer :
  fst (Insmod (HS := sys wide_answer) wifi_path "" (loader [] []) boot)
  = (true, register_loaded wifi_path "wifi_core" 1 (loader [] [])).
Proof. vm_compute. reflexivity. Qed.

Example Rmmod_narrowed_answer :
  fst (fst (Rmmod (HS := sys wide_answer) "wifi-core" loaded_wifi boot)) = true.
Proof. vm_compute. reflexivity. Qed.


(** The second candidate loads three modules and returns [false]. *)
Lemma LoadKernelModules_false_only_with_modules_witness :
  snd (fst (LoadKernelModules (HS := sys second_listed) 0 boot)) > 0.
Proof.
  apply (LoadKernelModules_false_only_with_modules (HS := sys second_listed) 0 boot).
  vm_compute. reflexivity.
Defined.

Lemma LoadKernelModules_overwrites_count_witness :
  LoadKernelModules (HS := sys nothing_listed) 0 boot
  = LoadKernelModules (HS := sys nothing_listed) 41 boot.
Proof.
  apply (LoadKernelModules_overwrites_count (HS := sys nothing_listed) 0 41 boot
           (entries_of two_names)).
  reflexivity.
Defined.

(** [main] on a host without [/lib/modules]. *)
Lemma main_reports_total_witness :
  cout (snd (main (HS := sys idle) boot))
  = ["Unable to open /lib/modules, skipping module loading."; "Total modules loaded: 0"]
  /\ calls_since boot (snd (main (HS := sys idle) boot))
     = [C_uname; C_opendir MODULE_BASE_DIR].
Proof.
  destruct (main_reports_total (HS := sys idle) boot) as (_ & _ & Hnone).
  apply Hnone. reflexivity.
Defined.

(** A module file that does not exist. *)
Lemma Insmod_open_failure_witness :
  fst (Insmod (HS := sys idle) "/lib/modules/6.1.0/none.ko" "" (loader [] []) boot)
  = (false, loader [] [])
  /\ calls_since boot
       (snd (Insmod (HS := sys idle) "/lib/modules/6.1.0/none.ko" "" (loader [] []) boot))
     = [C_open "/lib/modules/6.1.0/none.ko" insmod_flags]
  /\ cout (snd (Insmod (HS := sys idle) "/lib/modules/6.1.0/none.ko" ""
                       (loader [] []) boot))
     = cout boot.
Proof.
  apply (Insmod_open_failure (HS := sys idle) "/lib/modules/6.1.0/none.ko" ""
           (loader [] []) boot 0%nat).
  reflexivity.
Defined.

Lemma Insmod_releases_descriptor_witness :
  List.last
    (calls_since boot (snd (Insmod (HS := sys wifi) wifi_path "" (loader [] []) boot)))
    C_uname
  = C_close 3.
Proof.
  destruct (Insmod_releases_descriptor (HS := sys wifi) wifi_path "" (loader [] []) boot)
    as (_ & _ & Hlast).
  apply Hlast. discriminate.
Defined.

Lemma Insmod_answer_witness :
  wifi_path ∈ module_loaded_paths_ (snd (fst first_insmod))
  /\ "wifi_core" ∈ module_loaded_ (snd (fst first_insmod)).
Proof.
  destruct (Insmod_answer (HS := sys wifi) wifi_path "" (loader [] []) boot)
    as (Htrue & _ & _).
  apply Htrue. vm_compute. reflexivity.
Defined.

Lemma Rmmod_asks_kernel_witness :
  "wifi_core" ∉ module_loaded_
                  (snd (fst (Rmmod (HS := sys wifi) "wifi-core" loaded_wifi boot))).
Proof.
  destruct (Rmmod_asks_kernel (HS := sys wifi) "wifi-core" loaded_wifi boot)
    as (_ & Htrue & _).
  apply Htrue. vm_compute. reflexivity.
Defined.

Lemma Insmod_then_Rmmod_witness :
  fst (fst first_insmod) = true
  /\ fst (fst (Rmmod (HS := sys wifi) "wifi-core" (snd (fst first_insmod))
                     (snd first_insmod))) = true
  /\ ("wifi_core" ∉ module_loaded_
        (snd (fst (Rmmod (HS := sys wifi) "wifi-core" (snd (fst first_insmod))
                         (snd first_insmod)))))
  /\ (wifi_path ∈ module_loaded_paths_
        (snd (fst (Rmmod (HS := sys wifi) "wifi-core" (snd (fst first_insmod))
                         (snd first_insmod)))))
  /\ module_count_
       (snd (fst (Rmmod (HS := sys wifi) "wifi-core" (snd (fst first_insmod))
                        (snd first_insmod))))
     = 0 + 1.
Proof.
  apply (Insmod_then_Rmmod (HS := sys wifi) wifi_path "" "wifi-core" (loader [] []) boot
           3 0%nat 0 1%nat 0 1%nat).
  - reflexivity.
  - reflexivity.
  - discriminate.
  - vm_compute. reflexivity.
  - reflexivity.
Defined.

(** A module whose file is a regular file. *)
Lemma ModuleExists_true_iff_witness :
  fst (fst (ModuleExists (HS := sys wifi) "wifi_core" (loader [] []) boot)) = true.
Proof.
  destruct (ModuleExists_true_iff (HS := sys wifi) "wifi_core" (loader [] []) boot)
    as (Hiff & _).
  apply Hiff. split.
  - intros [_ Hin]. apply elem_of_empty in Hin. exact Hin.
  - exists wifi_path, [], 33188. repeat split.
Defined.

Lemma run_ops_canonical_backed_witness :
  canonical_backed (HS := sys wifi) (fst (run_ops (HS := sys wifi) wifi_session
                                                  (loader [] []) boot)).
Proof.
  apply (run_ops_canonical_backed (HS := sys wifi) wifi_session (loader [] []) boot).
  intros c Hc. apply elem_of_empty in Hc. destruct Hc.
Defined.

Lemma move_assign_transfers_witness :
  fst (UniqueFd.move_assign (HS := sys idle) 1%nat 2%nat two_handles boot) !! 1%nat
  = Some 4
  /\ fst (UniqueFd.move_assign (HS := sys idle) 1%nat 2%nat two_handles boot) !! 2%nat
     = Some (-1)
  /\ calls_since boot
       (snd (UniqueFd.move_assign (HS := sys idle) 1%nat 2%nat two_handles boot))
     = [C_close 3].
Proof.
  destruct (move_assign_transfers (HS := sys idle) 1%nat 2%nat two_handles boot 3 4
              eq_refl eq_refl) as (_ & Hne).
  destruct (Hne ltac:(discriminate)) as (H1 & H2 & _ & H4). auto.
Defined.

Lemma move_assign_no_leak_witness :
  (exists c, fst (UniqueFd.move_assign (HS := sys idle) 1%nat 2%nat two_handles boot) !! c
             = Some 3)
  \/ In 3 (closed_fds
             (calls_since boot
                (snd (UniqueFd.move_assign (HS := sys idle) 1%nat 2%nat two_handles boot)))).
Proof.
  destruct (move_assign_no_leak (HS := sys idle) 1%nat 2%nat two_handles boot 3
              ltac:(discriminate)) as (Hkept & _).
  apply Hkept. exists 1%nat. reflexivity.
Defined.

Lemma scoped_handle_witness :
  calls_since boot
    (snd ((let* st1 := UniqueFd.ctor (HS := sys wifi) 2%nat wifi_path one_handle in
           UniqueFd.dtor (HS := sys wifi) 2%nat st1) boot))
  = [C_open wifi_path insmod_flags; C_close 3].
Proof.
  apply (scoped_handle (HS := sys wifi) 2%nat wifi_path one_handle boot).
  reflexivity.
Defined.

Lemma moved_handle_closed_once_witness :
  calls_since boot
    (snd ((let* st2 := UniqueFd.dtor (HS := sys idle) 1%nat
                         (UniqueFd.move_ctor 2%nat 1%nat one_handle) in
           UniqueFd.dtor (HS := sys idle) 2%nat st2) boot))
  = [C_close 3].
Proof.
  destruct (moved_handle_closed_once (HS := sys idle) 1%nat 2%nat one_handle boot 3
              eq_refl eq_refl ltac:(discriminate)) as (_ & _ & Hold & _).
  exact Hold.
Defined.

Lemma exclusive_preserved_witness :
  UniqueFd.exclusive (UniqueFd.move_ctor 2%nat 1%nat one_handle).
Proof.
  apply (exclusive_preserved (HS := sys idle) 1%nat 2%nat one_handle boot).
  intros a b fd Ha Hb _. unfold one_handle in Ha, Hb.
  apply lookup_singleton_Some in Ha as [<- _].
  apply lookup_singleton_Some in Hb as [<- _]. reflexivity.
Defined.

End MoreRuns.
